(** * Relayer discovery for the Axelar Solana gateway

    A shallow embedding of the relayer-discovery design (the
    [RelayerTransaction] wire structures, their conversion into regular
    instructions, the resolution loop and the funding step) and of the
    generated gateway bindings ([program.ts], [coder/events.ts]). *)

From Stdlib Require Import String Ascii.
From Stdlib Require Import List NArith ZArith Lia Bool.
From Stdlib.Strings Require Import Byte.
Import ListNotations.

Set Implicit Arguments.

(** ** Decoding results *)

Inductive DecodeError : Type :=
| UnexpectedEof
| InvalidBool
| InvalidDiscriminant
| LengthExceedsInput
| NoInstruction.

Inductive result (A : Type) : Type :=
| Ok (a : A)
| Err (e : DecodeError).

Arguments Ok {A} a.
Arguments Err {A} e.

Definition bind {A B} (r : result A) (k : A -> result B) : result B :=
  match r with
  | Ok a => k a
  | Err e => Err e
  end.

Notation "' p <- r ;; k" := (bind r (fun p => k))
  (at level 61, p pattern, r at next level, right associativity).

Definition is_err {A} (r : result A) : Prop := exists e, r = Err e.

(** A reader consumes a prefix of the input and hands back the rest. *)
Definition reader (A : Type) : Type := list byte -> result (A * list byte).

(** ** Borsh primitives *)

Module Borsh.

Definition byte_of_N (n : N) : byte :=
  match Byte.of_N (n mod 256) with
  | Some b => b
  | None => x00
  end.

(** Little-endian integers on [k] bytes. *)
Fixpoint to_le (k : nat) (n : N) : list byte :=
  match k with
  | O => []
  | S k' => byte_of_N n :: to_le k' (n / 256)
  end.

Fixpoint of_le (bs : list byte) : N :=
  match bs with
  | [] => 0
  | b :: bs' => Byte.to_N b + 256 * of_le bs'
  end.

Definition take (k : nat) : reader (list byte) :=
  fun bs =>
    if length bs <? k then Err UnexpectedEof
    else Ok (firstn k bs, skipn k bs).

Definition ser_u8 (b : byte) : list byte := [b].

Definition de_u8 : reader byte :=
  fun bs =>
    match bs with
    | [] => Err UnexpectedEof
    | b :: rest => Ok (b, rest)
    end.

Definition de_le (k : nat) : reader N :=
  fun bs => '(h, rest) <- take k bs ;; Ok (of_le h, rest).

Definition ser_u32 (n : N) : list byte := to_le 4 n.

Definition de_u32 : reader N := de_le 4.

Definition ser_u64 (n : N) : list byte := to_le 8 n.

Definition de_u64 : reader N := de_le 8.

(** Modelled from the spec: booleans are one byte, 0 or 1; any other byte
    is no boolean. *)
Definition ser_bool (b : bool) : list byte :=
  [if b then x01 else x00].

(** Modelled from the spec: the reader of a boolean, for which a byte other
    than 0 and 1 is malformed. *)
Definition de_bool : reader bool :=
  fun bs =>
    match bs with
    | [] => Err UnexpectedEof
    | x00 :: rest => Ok (false, rest)
    | x01 :: rest => Ok (true, rest)
    | _ :: _ => Err InvalidBool
    end.

(** [n] elements in a row. *)
Fixpoint de_seq {A} (de : reader A) (n : nat) : reader (list A) :=
  fun bs =>
    match n with
    | O => Ok ([], bs)
    | S n' =>
        '(x, rest) <- de bs ;;
        '(xs, rest') <- de_seq de n' rest ;;
        Ok (x :: xs, rest')
    end.

Definition ser_seq {A} (ser : A -> list byte) (xs : list A) : list byte :=
  concat (map ser xs).

(** [Vec<T>]: a little-endian u32 count, then the elements.  A count larger
    than what is left of the input is refused before any element is read. *)
Definition ser_vec {A} (ser : A -> list byte) (xs : list A) : list byte :=
  ser_u32 (N.of_nat (length xs)) ++ ser_seq ser xs.

Definition de_vec {A} (de : reader A) : reader (list A) :=
  fun bs =>
    '(n, rest) <- de_u32 bs ;;
    if (N.of_nat (length rest) <? n)%N then Err LengthExceedsInput
    else de_seq de (N.to_nat n) rest.

Definition wf_vec {A} (wf : A -> Prop) (xs : list A) : Prop :=
  (N.of_nat (length xs) < 2 ^ 32)%N /\ Forall wf xs.

(** What a serializer/deserializer pair owes each other. *)
Record Laws {A} (wf : A -> Prop) (ser : A -> list byte) (de : reader A)
  : Prop := {
  de_ser : forall x rest, wf x -> de (ser x ++ rest) = Ok (x, rest);
  ser_de : forall bs x rest, de bs = Ok (x, rest) -> wf x /\ bs = ser x ++ rest;
  ser_nonempty : forall x, wf x -> 1 <= length (ser x)
}.

End Borsh.

(** ** Keccak-256, for the seed constant *)

Module Keccak.

Definition lane_mask : N := 0xFFFFFFFFFFFFFFFF.

Definition rol (x n : N) : N :=
  N.lor (N.land (N.shiftl x n) lane_mask) (N.shiftr x (64 - n)).

Definition not64 (x : N) : N := N.lxor x lane_mask.

(** The state is 25 lanes, lane (x, y) at index x + 5 * y. *)
Definition lane (s : list N) (x y : nat) : N := nth (x mod 5 + 5 * (y mod 5)) s 0%N.

Definition lanes (f : nat -> nat -> N) : list N :=
  map (fun i => f (i mod 5) (i / 5)) (seq 0 25).

Definition round_constants : list N :=
  [ 0x0000000000000001; 0x0000000000008082; 0x800000000000808A;
    0x8000000080008000; 0x000000000000808B; 0x0000000080000001;
    0x8000000080008081; 0x8000000000008009; 0x000000000000008A;
    0x0000000000000088; 0x0000000080008009; 0x000000008000000A;
    0x000000008000808B; 0x800000000000008B; 0x8000000000008089;
    0x8000000000008003; 0x8000000000008002; 0x8000000000000080;
    0x000000000000800A; 0x800000008000000A; 0x8000000080008081;
    0x8000000000008080; 0x0000000080000001; 0x8000000080008008 ]%N.

(** Rotation offsets, row x, column y. *)
Definition rotation_offsets : list (list N) :=
  [ [ 0; 36;  3; 41; 18];
    [ 1; 44; 10; 45;  2];
    [62;  6; 43; 15; 61];
    [28; 55; 25; 21; 56];
    [27; 20; 39;  8; 14] ]%N.

Definition rotation (x y : nat) : N := nth y (nth x rotation_offsets []) 0%N.

Definition theta (s : list N) : list N :=
  let c x := N.lxor (lane s x 0) (N.lxor (lane s x 1) (N.lxor (lane s x 2)
               (N.lxor (lane s x 3) (lane s x 4)))) in
  let d x := N.lxor (c (x + 4)) (rol (c (x + 1)) 1) in
  lanes (fun x y => N.lxor (lane s x y) (d x)).

(** Target lane (x', y') takes source lane (x, y) with x' = y and
    y' = 2x + 3y, that is x = x' + 3y' and y = x' (mod 5). *)
Definition rho_pi (s : list N) : list N :=
  lanes (fun x' y' =>
           let x := (x' + 3 * y') mod 5 in
           let y := x' in
           rol (lane s x y) (rotation x y)).

Definition chi (s : list N) : list N :=
  lanes (fun x y =>
           N.lxor (lane s x y)
                  (N.land (not64 (lane s (x + 1) y)) (lane s (x + 2) y))).

Definition iota (rc : N) (s : list N) : list N :=
  match s with
  | [] => []
  | l :: s' => N.lxor l rc :: s'
  end.

Definition keccak_round (s : list N) (rc : N) : list N :=
  iota rc (chi (rho_pi (theta s))).

Definition keccak_f (s : list N) : list N :=
  fold_left keccak_round round_constants s.

Definition rate : nat := 136.

Definition pad (m : list byte) : list byte :=
  let q := rate - length m mod rate in
  if q =? 1 then m ++ [x81]
  else m ++ x01 :: repeat x00 (q - 2) ++ [x80].

Definition xor_block (s : list N) (block : list byte) : list N :=
  lanes (fun x y =>
           let i := x + 5 * y in
           if i <? rate / 8
           then N.lxor (lane s x y)
                       (Borsh.of_le (firstn 8 (skipn (8 * i) block)))
           else lane s x y).

Fixpoint absorb (fuel : nat) (s : list N) (p : list byte) : list N :=
  match fuel with
  | O => s
  | S fuel' =>
      match p with
      | [] => s
      | _ :: _ =>
          absorb fuel' (keccak_f (xor_block s (firstn rate p))) (skipn rate p)
      end
  end.

Definition squeeze (s : list N) : list byte :=
  concat (map (fun l => Borsh.to_le 8 l) (firstn 4 s)).

Definition keccak256 (m : list byte) : list byte :=
  let p := pad m in
  squeeze (absorb (length p) (repeat 0%N 25) p).

End Keccak.

(** ** The relayer-discovery structures *)

Module Discovery.

Import Borsh.

(** A [Pubkey] is 32 raw bytes. *)
Definition Pubkey : Type := list byte.

Definition wf_Pubkey (k : Pubkey) : Prop := length k = 32.

Record AccountMeta : Type := {
  pubkey : Pubkey;
  is_signer : bool;
  is_writable : bool
}.

Inductive RelayerData : Type :=
| Bytes (b : list byte)
| Message.

Inductive RelayerAccount : Type :=
| Account (meta : AccountMeta)
| IncomingMessage
| MessagePayload
| Payer (lamports : N).

(** The struct declares [accounts: Vec<AccountMeta>], while every
    [RelayerInstruction] the document builds, and the conversion rule for
    [accounts], use [RelayerAccount] entries; the entries are
    [RelayerAccount]s here. *)
Record RelayerInstruction : Type := {
  program : Pubkey;
  accounts : list RelayerAccount;
  data : list RelayerData
}.

Record RelayerTransaction : Type := {
  is_final : bool;
  instructions : list RelayerInstruction
}.

(** *** Well-formed values: what the Rust types can hold *)

Definition wf_AccountMeta (m : AccountMeta) : Prop := wf_Pubkey (pubkey m).

Definition wf_RelayerData (d : RelayerData) : Prop :=
  match d with
  | Bytes b => wf_vec (fun _ => True) b
  | Message => True
  end.

Definition wf_RelayerAccount (a : RelayerAccount) : Prop :=
  match a with
  | Account m => wf_AccountMeta m
  | IncomingMessage | MessagePayload => True
  | Payer lamports => (lamports < 2 ^ 64)%N
  end.

Definition wf_RelayerInstruction (i : RelayerInstruction) : Prop :=
  wf_Pubkey (program i) /\
  wf_vec wf_RelayerAccount (accounts i) /\
  wf_vec wf_RelayerData (data i).

Definition wf_RelayerTransaction (t : RelayerTransaction) : Prop :=
  wf_vec wf_RelayerInstruction (instructions t).

(** Modelled from the spec: a valid descriptor is one the types can hold
    that keeps the invariant of the data model, at least one instruction. *)
Definition valid_RelayerTransaction (t : RelayerTransaction) : Prop :=
  wf_RelayerTransaction t /\ instructions t <> [].

(** *** Wire codec *)

(** Fixed-size byte arrays are written verbatim, with no length prefix. *)
Definition ser_Pubkey (k : Pubkey) : list byte := k.

Definition de_Pubkey : reader Pubkey := take 32.

(** Modelled from the spec: the serializer of an account entry is not part of
    the sources; address, then the signer flag, then the writable flag. *)
Definition ser_AccountMeta (m : AccountMeta) : list byte :=
  ser_Pubkey (pubkey m) ++ ser_bool (is_signer m) ++ ser_bool (is_writable m).

(** Modelled from the spec: the deserializer of an account entry is not part
    of the sources. *)
Definition de_AccountMeta : reader AccountMeta :=
  fun bs =>
    '(k, r1) <- de_Pubkey bs ;;
    '(s, r2) <- de_bool r1 ;;
    '(w, r3) <- de_bool r2 ;;
    Ok ({| pubkey := k; is_signer := s; is_writable := w |}, r3).

(** Modelled from the spec: the serializer of [RelayerData] is not part of
    the sources; a tagged union is a one-byte discriminant in declaration
    order (0 = Bytes, 1 = Message) followed by the variant's payload. *)
Definition ser_RelayerData (d : RelayerData) : list byte :=
  match d with
  | Bytes b => x00 :: ser_vec ser_u8 b
  | Message => [x01]
  end.

(** Modelled from the spec: the deserializer of [RelayerData] is not part of
    the sources; an unrecognized discriminant is a decode error. *)
Definition de_RelayerData : reader RelayerData :=
  fun bs =>
    '(tag, rest) <- de_u8 bs ;;
    match tag with
    | x00 => '(b, rest') <- de_vec de_u8 rest ;; Ok (Bytes b, rest')
    | x01 => Ok (Message, rest)
    | _ => Err InvalidDiscriminant
    end.

(** Modelled from the spec: the serializer of [RelayerAccount] is not part
    of the sources; discriminants in declaration order (0 = Account,
    1 = IncomingMessage, 2 = MessagePayload, 3 = Payer). *)
Definition ser_RelayerAccount (a : RelayerAccount) : list byte :=
  match a with
  | Account m => x00 :: ser_AccountMeta m
  | IncomingMessage => [x01]
  | MessagePayload => [x02]
  | Payer lamports => x03 :: ser_u64 lamports
  end.

(** Modelled from the spec: the deserializer of [RelayerAccount] is not part
    of the sources. *)
Definition de_RelayerAccount : reader RelayerAccount :=
  fun bs =>
    '(tag, rest) <- de_u8 bs ;;
    match tag with
    | x00 => '(m, rest') <- de_AccountMeta rest ;; Ok (Account m, rest')
    | x01 => Ok (IncomingMessage, rest)
    | x02 => Ok (MessagePayload, rest)
    | x03 => '(l, rest') <- de_u64 rest ;; Ok (Payer l, rest')
    | _ => Err InvalidDiscriminant
    end.

(** Modelled from the spec: the serializer of [RelayerInstruction] is not
    part of the sources; fields in declaration order, sequences with a
    little-endian 32-bit count. *)
Definition ser_RelayerInstruction (i : RelayerInstruction) : list byte :=
  ser_Pubkey (program i) ++
  ser_vec ser_RelayerAccount (accounts i) ++
  ser_vec ser_RelayerData (data i).

(** Modelled from the spec: the deserializer of [RelayerInstruction] is not
    part of the sources. *)
Definition de_RelayerInstruction : reader RelayerInstruction :=
  fun bs =>
    '(p, r1) <- de_Pubkey bs ;;
    '(a, r2) <- de_vec de_RelayerAccount r1 ;;
    '(d, r3) <- de_vec de_RelayerData r2 ;;
    Ok ({| program := p; accounts := a; data := d |}, r3).

(** Modelled from the spec: the serializer of [RelayerTransaction] is not
    part of the sources. *)
Definition ser_RelayerTransaction (t : RelayerTransaction) : list byte :=
  ser_bool (is_final t) ++ ser_vec ser_RelayerInstruction (instructions t).

(** Modelled from the spec: the deserializer of [RelayerTransaction] is not
    part of the sources. *)
Definition de_RelayerTransaction : reader RelayerTransaction :=
  fun bs =>
    '(f, r1) <- de_bool bs ;;
    '(i, r2) <- de_vec de_RelayerInstruction r1 ;;
    Ok ({| is_final := f; instructions := i |}, r2).

(** Modelled from the spec: [encode(DiscoveryDescriptor) -> bytes], which is
    not part of the sources. *)
Definition encode (t : RelayerTransaction) : list byte :=
  ser_RelayerTransaction t.

(** Modelled from the spec: [decode(bytes) -> DiscoveryDescriptor], which is
    not part of the sources.  It fails on truncated input, on an
    unrecognized discriminant and on a length prefix that exceeds the
    remaining input, and a decoded descriptor must contain at least one
    instruction; bytes after the descriptor are left unread. *)
Definition decode (bs : list byte) : result RelayerTransaction :=
  '(t, _) <- de_RelayerTransaction bs ;;
  match instructions t with
  | [] => Err NoInstruction
  | _ :: _ => Ok t
  end.

(** *** Inputs cut at a given place

    The bytes of a descriptor up to the place where its next instruction,
    account entry or data chunk starts, followed by arbitrary bytes [rest].
    [n] and [k] are the announced counts, [pre] the elements already
    written. *)

Definition at_instruction (f : bool) (n : N) (pre : list RelayerInstruction)
  (rest : list byte) : list byte :=
  ser_bool f ++ ser_u32 n ++ ser_seq ser_RelayerInstruction pre ++ rest.

Definition at_account (p : Pubkey) (k : N) (pre : list RelayerAccount)
  (rest : list byte) : list byte :=
  ser_Pubkey p ++ ser_u32 k ++ ser_seq ser_RelayerAccount pre ++ rest.

Definition at_data (p : Pubkey) (accts : list RelayerAccount) (k : N)
  (pre : list RelayerData) (rest : list byte) : list byte :=
  ser_Pubkey p ++ ser_vec ser_RelayerAccount accts ++
  ser_u32 k ++ ser_seq ser_RelayerData pre ++ rest.

(** *** The message being relayed *)

(** Modelled from the spec: the [Message] struct of the encoding crate is not
    part of the sources; its fields are the source chain and message id
    ([cc_id]), the source address, the destination chain, the destination
    address and the 32-byte payload hash.  Strings are held as their bytes.
    The record is named [AxelarMessage] because [Message] is the
    [RelayerData] variant. *)
Record CrossChainId : Type := {
  chain : list byte;
  id : list byte
}.

Record AxelarMessage : Type := {
  cc_id : CrossChainId;
  source_address : list byte;
  destination_chain : list byte;
  destination_address : list byte;
  payload_hash : list byte
}.

(** Modelled from the spec: the serialized form of the message, fields in
    order, each string as a 32-bit count and its bytes, the hash verbatim. *)
Definition ser_Message (m : AxelarMessage) : list byte :=
  ser_vec ser_u8 (chain (cc_id m)) ++
  ser_vec ser_u8 (id (cc_id m)) ++
  ser_vec ser_u8 (source_address m) ++
  ser_vec ser_u8 (destination_chain m) ++
  ser_vec ser_u8 (destination_address m) ++
  payload_hash m.

(** *** Conversion into a regular instruction *)

Record Instruction : Type := {
  ix_program_id : Pubkey;
  ix_accounts : list AccountMeta;
  ix_data : list byte
}.

(** Modelled from the spec: what the relayer knows when it converts: its
    payer, the two gateway accounts of the command with the flags of their
    role, and the message once the command is known. *)
Record ResolutionContext : Type := {
  payer : Pubkey;
  incoming_message_pda : AccountMeta;
  message_payload_pda : AccountMeta;
  message : option AxelarMessage
}.

(** Modelled from the spec: the account resolver is not part of the sources.
    [requested] is the accumulator of the lamports asked for the payer. *)
Definition resolve (ctx : ResolutionContext) (a : RelayerAccount)
  (requested : N) : AccountMeta * N :=
  match a with
  | Account m => (m, requested)
  | IncomingMessage => (incoming_message_pda ctx, requested)
  | MessagePayload => (message_payload_pda ctx, requested)
  | Payer lamports =>
      ({| pubkey := payer ctx; is_signer := true; is_writable := true |},
       (requested + lamports)%N)
  end.

Fixpoint resolve_all (ctx : ResolutionContext) (l : list RelayerAccount)
  (requested : N) : list AccountMeta * N :=
  match l with
  | [] => ([], requested)
  | a :: l' =>
      let '(m, requested1) := resolve ctx a requested in
      let '(ms, requested2) := resolve_all ctx l' requested1 in
      (m :: ms, requested2)
  end.

(** [Bytes] are just vectors; [Message] is the serialized message, which
    must be at hand. *)
Definition convert_chunk (msg : option AxelarMessage) (d : RelayerData)
  : option (list byte) :=
  match d with
  | Bytes b => Some b
  | Message => option_map ser_Message msg
  end.

(** [data] is converted by concatenating each of its elements together. *)
Fixpoint convert_data (msg : option AxelarMessage) (ds : list RelayerData)
  : option (list byte) :=
  match ds with
  | [] => Some []
  | d :: ds' =>
      match convert_chunk msg d, convert_data msg ds' with
      | Some b, Some bs => Some (b ++ bs)
      | _, _ => None
      end
  end.

Definition to_instruction (ctx : ResolutionContext) (i : RelayerInstruction)
  (requested : N) : option (Instruction * N) :=
  let '(metas, requested') := resolve_all ctx (accounts i) requested in
  match convert_data (message ctx) (data i) with
  | Some bytes =>
      Some ({| ix_program_id := program i;
               ix_accounts := metas;
               ix_data := bytes |}, requested')
  | None => None
  end.

Fixpoint to_instructions (ctx : ResolutionContext)
  (l : list RelayerInstruction) (requested : N)
  : option (list Instruction * N) :=
  match l with
  | [] => Some ([], requested)
  | i :: l' =>
      match to_instruction ctx i requested with
      | None => None
      | Some (ix, requested1) =>
          match to_instructions ctx l' requested1 with
          | None => None
          | Some (ixs, requested2) => Some (ix :: ixs, requested2)
          end
      end
  end.

(** The regular transaction of a [RelayerTransaction] and the lamports its
    [Payer] entries ask for. *)
Definition to_transaction (ctx : ResolutionContext) (t : RelayerTransaction)
  : option (list Instruction * N) :=
  to_instructions ctx (instructions t) 0%N.

(** The lamports an account entry asks for. *)
Definition lamports_of (a : RelayerAccount) : N :=
  match a with
  | Payer lamports => lamports
  | _ => 0%N
  end.

Definition sum_N (l : list N) : N := fold_right N.add 0%N l.

Definition total_requested (t : RelayerTransaction) : N :=
  sum_N (map lamports_of (flat_map accounts (instructions t))).

(** *** The address of the descriptor *)

(** keccak256('relayer-discovery-transaction') *)
Definition TRANSACTION_PDA_SEED : list byte :=
  [ xa5; x71; x28; x34; x91; x32; xc5; x8c; x57; x00; x67; x41; x95; xdf;
    x81; xef; x5e; xe8; x9b; xc3; x6f; x0e; x96; x76; xba; xe7; xe1; x47;
    x9b; x7f; xce; xde ].

Section TransactionPda.

(** [Pubkey::find_program_address] of the Solana SDK: seeds and program id
    to address and bump. *)
Variable find_program_address : list (list byte) -> Pubkey -> Pubkey * byte.

Definition transaction_pda (program_id : Pubkey) : Pubkey * byte :=
  find_program_address [TRANSACTION_PDA_SEED] program_id.

End TransactionPda.

(** *** The relayer *)

(** The ways a relay attempt can fail, under the names of the spec's error
    taxonomy. *)
Inductive RelayFailure : Type :=
| AccountNotFoundError
| DecodeFailure (e : DecodeError)
| MaterializationError
| SimulationFailure
| MaxRoundsExceeded
| FundingMismatch
| ExecutionFailure.

Inductive outcome (A : Type) : Type :=
| Done (a : A)
| Failed (r : RelayFailure).

Arguments Done {A} a.
Arguments Failed {A} r.

Section Relayer.

(** The node's [simulateTransaction] on the converted transaction: the
    return data, or nothing when the simulation fails. *)
Variable simulate : RelayerTransaction -> option (list byte).

(** [[
    while(!relayer_transaction_is_final) {
        relayer_transaction = relayer_trnasaction.simulate().return_data.decode()
    }
    relayer_transaction.execute()
    ]]
    The loop has no bound of its own: [fuel] only cuts the unfolding, and
    [None] says the loop is still running when the fuel is spent.  [round]
    counts the descriptors decoded so far; the result is the transaction
    handed to [execute] with the final count. *)
Fixpoint relayer_loop (fuel : nat) (relayer_transaction : RelayerTransaction)
  (round : nat) : option (outcome (RelayerTransaction * nat)) :=
  match fuel with
  | O => None
  | S fuel' =>
      if is_final relayer_transaction
      then Some (Done (relayer_transaction, round))
      else
        match simulate relayer_transaction with
        | None => Some (Failed SimulationFailure)
        | Some return_data =>
            match decode return_data with
            | Err e => Some (Failed (DecodeFailure e))
            | Ok decoded => relayer_loop fuel' decoded (S round)
            end
        end
  end.

(** Steps 1 to 3 of the relayer, from the data of [getAccountInfo] for the
    [transaction_pda] ([None]: no such account). *)
Definition discover (fuel : nat) (account_data : option (list byte))
  : option (outcome (RelayerTransaction * nat)) :=
  match account_data with
  | None => Some (Failed AccountNotFoundError)
  | Some bs =>
      match decode bs with
      | Err e => Some (Failed (DecodeFailure e))
      | Ok relayer_transaction => relayer_loop fuel relayer_transaction 1
      end
  end.

(** One turn of the loop on a transaction that is not final. *)
Definition next (t : RelayerTransaction) : option RelayerTransaction :=
  match simulate t with
  | None => None
  | Some return_data =>
      match decode return_data with
      | Ok t' => Some t'
      | Err _ => None
      end
  end.

(** [t] followed by [rest] is a chain: every descriptor but the last is
    not final and the simulation of its transaction returns the one that
    follows, and the last is final. *)
Fixpoint linked (t : RelayerTransaction) (rest : list RelayerTransaction)
  : Prop :=
  match rest with
  | [] => is_final t = true
  | t' :: rest' => is_final t = false /\ next t = Some t' /\ linked t' rest'
  end.

(** A chain without end in which [is_final] is never set. *)
Definition never_final (c : nat -> RelayerTransaction) : Prop :=
  forall i, is_final (c i) = false /\ next (c i) = Some (c (S i)).

End Relayer.

(** Step 4: if the gas covers the amount requested alongside what is needed
    for the execution, make sure the payer has exactly the funds requested.
    The result is the transfer to the payer that does so (negative when the
    payer holds more than requested). *)
Definition fund_payer (gas execution_cost requested balance : Z) : outcome Z :=
  if (requested + execution_cost <=? gas)%Z
  then Done (requested - balance)%Z
  else Failed FundingMismatch.

(** Modelled from the spec: the execution of the final transaction is not
    part of the sources.  The payer must hold at least the requested
    [Payer] amounts immediately before execution, and a successful execution
    decreases the payer's balance by the sum of those amounts.  The result
    is the payer's balance after the execution. *)
Definition execute (t : RelayerTransaction) (balance : Z) : outcome Z :=
  let total := Z.of_N (total_requested t) in
  if (total <=? balance)%Z
  then Done (balance - total)%Z
  else Failed ExecutionFailure.

(** Steps 4 and 5 on the payer's balance: fund the payer, then execute the
    transaction, passing the funded payer. *)
Definition fund_and_execute (ctx : ResolutionContext)
  (gas execution_cost balance : Z) (t : RelayerTransaction) : outcome Z :=
  match to_transaction ctx t with
  | None => Failed MaterializationError
  | Some (_, requested) =>
      match fund_payer gas execution_cost (Z.of_N requested) balance with
      | Failed r => Failed r
      | Done transfer => execute t (balance + transfer)
      end
  end.

End Discovery.

(** ** The Interchain Token Service example of the document *)

Module ItsExample.

Import Discovery.

(** [AccountMeta::new] and [AccountMeta::new_readonly]. *)
Definition new (k : Pubkey) (signer : bool) : AccountMeta :=
  {| pubkey := k; is_signer := signer; is_writable := true |}.

Definition new_readonly (k : Pubkey) (signer : bool) : AccountMeta :=
  {| pubkey := k; is_signer := signer; is_writable := false |}.

(** The selector bytes and the cost are constants of the executable whose
    values the document leaves open. *)
Section Executable.

Variables (RELAYER_DISCOVERY_BUILD_TRANSACTION_1
           RELAYER_DISCOVERY_BUILD_TRANSACTION_2 EXECUTE : byte).
Variable INTERCHAIN_TRANSFER_COST : N.
Variable crate_id : Pubkey.

(** The transaction stored in the [transaction_pda]. *)
Definition transaction : RelayerTransaction :=
  {| is_final := false;
     instructions :=
       [ {| program := crate_id;
            accounts := [ MessagePayload ];
            data := [ Bytes [ RELAYER_DISCOVERY_BUILD_TRANSACTION_1 ] ] |} ] |}.

(** The [InterchainTransfer] case of
    [relayer_discovery_build_transaction_1]. *)
Definition relayer_discovery_build_transaction_1 (token_manager_pda : Pubkey)
  : RelayerTransaction :=
  {| is_final := false;
     instructions :=
       [ {| program := crate_id;
            accounts := [ MessagePayload;
                          Account (new token_manager_pda false) ];
            data := [ Bytes [ RELAYER_DISCOVERY_BUILD_TRANSACTION_2 ];
                      Message ] |} ] |}.

(** The [InterchainTransfer] case without data of
    [relayer_discovery_build_transaction_2]; the addresses it derives or
    loads are parameters. *)
Definition relayer_discovery_build_transaction_2
  (gateway_approved_message_signing_pda gateway_root_pda gateway_id
   system_program_id its_root_pda token_manager_pda token_manager_ata
   token_mint spl_token_2022_id token_program rent_id
   destination destination_ata : Pubkey) : RelayerTransaction :=
  let accounts0 :=
    [ Payer INTERCHAIN_TRANSFER_COST;
      IncomingMessage;
      MessagePayload;
      Account (new_readonly gateway_approved_message_signing_pda false);
      Account (new_readonly gateway_root_pda false);
      Account (new_readonly gateway_id false) ] in
  let accounts1 :=
    accounts0 ++
    [ Account (new_readonly system_program_id false);
      Account (new_readonly its_root_pda false);
      Account (new token_manager_pda false);
      Account (new token_manager_ata false);
      Account (new token_mint false);
      Account (new_readonly spl_token_2022_id false);
      Account (new_readonly token_program false);
      Account (new_readonly rent_id false) ] in
  let accounts2 :=
    accounts1 ++
    [ Account (new destination false);
      Account (new destination_ata false) ] in
  {| is_final := true;
     instructions :=
       [ {| program := crate_id;
            accounts := accounts2;
            data := [ Bytes [ EXECUTE ]; Message ] |} ] |}.

End Executable.

(** A run of the example with sample constants and addresses. *)
Definition key (b : byte) : Pubkey := repeat b 32.

Definition BUILD_1 : byte := x01.
Definition BUILD_2 : byte := x02.
Definition EXEC : byte := x03.
Definition COST : N := 1000.

Definition round0 : RelayerTransaction := transaction BUILD_1 (key x11).

Definition round1 : RelayerTransaction :=
  relayer_discovery_build_transaction_1 BUILD_2 (key x11) (key x21).

Definition round2 : RelayerTransaction :=
  relayer_discovery_build_transaction_2 EXEC COST (key x11)
    (key x31) (key x32) (key x33) (key x34) (key x35) (key x21) (key x36)
    (key x37) (key x38) (key x39) (key x3a) (key x3b) (key x3c).

(** The executable dispatches on the selector byte in front of the data. *)
Definition selector (t : RelayerTransaction) : option byte :=
  match instructions t with
  | i :: _ =>
      match data i with
      | Bytes (b :: _) :: _ => Some b
      | _ => None
      end
  | [] => None
  end.

Definition simulate (t : RelayerTransaction) : option (list byte) :=
  match selector t with
  | Some b =>
      if Byte.eqb b BUILD_1 then Some (encode round1)
      else if Byte.eqb b BUILD_2 then Some (encode round2)
      else None
  | None => None
  end.

(** An executable that asks for one more round every time. *)
Definition simulate_again (t : RelayerTransaction) : option (list byte) :=
  Some (encode round0).

Definition sample_message : AxelarMessage :=
  {| cc_id := {| chain := [x65; x74; x68]; id := [x30; x78; x31] |};
     source_address := [x61];
     destination_chain := [x73; x6f; x6c];
     destination_address := [x62];
     payload_hash := key x00 |}.

Definition sample_context : ResolutionContext :=
  {| payer := key xaa;
     incoming_message_pda := new (key xbb) false;
     message_payload_pda := new_readonly (key xcc) false;
     message := Some sample_message |}.

(** A final transaction whose instructions ask for the payer three times. *)
Definition funded_thrice : RelayerTransaction :=
  {| is_final := true;
     instructions :=
       [ {| program := key x11;
            accounts := [ Payer 1000; MessagePayload ];
            data := [ Bytes [ EXEC ] ] |};
         {| program := key x12;
            accounts := [ Payer 234; IncomingMessage; Payer 1 ];
            data := [ Bytes [ x09 ]; Message ] |} ] |}.

End ItsExample.

(** ** The generated gateway bindings *)

Module Gateway.

Local Open Scope string_scope.

(** JavaScript completions: a returned value or a thrown error. *)
Record Error : Type := { error_message : string }.

Inductive completion (A : Type) : Type :=
| Return (a : A)
| Throw (e : Error).

Arguments Return {A} a.
Arguments Throw {A} e.

(** [o?.f]: undefined when [o] is, and [a ?? d]: [d] when [a] is undefined. *)
Definition optional_chain {A B} (o : option A) (f : A -> option B) : option B :=
  match o with
  | Some a => f a
  | None => None
  end.

Definition nullish {A} (a : option A) (d : A) : A :=
  match a with
  | Some v => v
  | None => d
  end.

(** *** program.ts *)

Record PublicKey : Type := { base58 : string }.

Definition AXELAR_SOLANA_GATEWAY_PROGRAM_ID : PublicKey :=
  {| base58 := "gtwLjHAsfKAR6GWB4hzTUAA1w4SDdFMKamtGA5ttMEe" |}.

(** The instruction, type and error tables of the IDL are left out. *)
Record Idl : Type := {
  version : string;
  name : string
}.

Definition IDL : Idl :=
  {| version := "0.1.0"; name := "axelar_solana_gateway" |}.

Inductive Coder : Type :=
| AxelarSolanaGatewayCoder (idl : Idl).

Section Bindings.

Variable AnchorProvider : Type.
Variable Event : Type.

Record GetProgramParams : Type := {
  programId : option PublicKey;
  provider : option AnchorProvider
}.

(** The arguments [new Program] is given. *)
Record Program : Type := {
  program_idl : Idl;
  program_programId : PublicKey;
  program_provider : option AnchorProvider;
  program_coder : Coder
}.

Definition axelarSolanaGatewayProgram (params : option GetProgramParams)
  : Program :=
  {| program_idl := IDL;
     program_programId :=
       nullish (optional_chain params programId)
               AXELAR_SOLANA_GATEWAY_PROGRAM_ID;
     program_provider := optional_chain params provider;
     program_coder := AxelarSolanaGatewayCoder IDL |}.

(** *** coder/events.ts *)

Definition decode (_log : string) : completion (option Event) :=
  Throw {| error_message := "AxelarSolanaGateway program does not have events" |}.

End Bindings.

End Gateway.

(** ** More of the discovery document *)

Module DiscoveryMore.

Import Borsh Discovery.

(** *** Sizes on the wire *)

Definition size_RelayerAccount (a : RelayerAccount) : nat :=
  match a with
  | Account _ => 1 + 32 + 1 + 1
  | IncomingMessage | MessagePayload => 1
  | Payer _ => 1 + 8
  end.

Definition size_RelayerData (d : RelayerData) : nat :=
  match d with
  | Bytes b => 1 + 4 + length b
  | Message => 1
  end.

Definition size_RelayerInstruction (i : RelayerInstruction) : nat :=
  32 + (4 + list_sum (map size_RelayerAccount (accounts i)))
     + (4 + list_sum (map size_RelayerData (data i))).

(** The length of [to_vec(transaction)], which is what the
    [transaction_pda] is initialised with. *)
Definition size_RelayerTransaction (t : RelayerTransaction) : nat :=
  1 + 4 + list_sum (map size_RelayerInstruction (instructions t)).

(** *** The message as the executable reads it

    [relayer_discovery_build_transaction_2] takes the [Message] that follows
    the selector byte in the instruction data.  Its fields are those of the
    [Message] type of the gateway IDL: [ccId] (a [CrossChainId] of two
    strings), three strings and an array of 32 bytes. *)

Definition wf_Message (m : AxelarMessage) : Prop :=
  wf_vec (fun _ : byte => True) (chain (cc_id m)) /\
  wf_vec (fun _ : byte => True) (id (cc_id m)) /\
  wf_vec (fun _ : byte => True) (source_address m) /\
  wf_vec (fun _ : byte => True) (destination_chain m) /\
  wf_vec (fun _ : byte => True) (destination_address m) /\
  length (payload_hash m) = 32.

Definition de_Message : reader AxelarMessage :=
  fun bs =>
    '(c, r1) <- de_vec de_u8 bs ;;
    '(i, r2) <- de_vec de_u8 r1 ;;
    '(s, r3) <- de_vec de_u8 r2 ;;
    '(dc, r4) <- de_vec de_u8 r3 ;;
    '(da, r5) <- de_vec de_u8 r4 ;;
    '(h, r6) <- take 32 r5 ;;
    Ok ({| cc_id := {| chain := c; id := i |};
           source_address := s;
           destination_chain := dc;
           destination_address := da;
           payload_hash := h |}, r6).

(** The entry point of the executable: the selector byte, then the
    arguments of the selected function. *)
Definition de_selector_and_message : reader (byte * AxelarMessage) :=
  fun bs =>
    '(selector, r1) <- de_u8 bs ;;
    '(m, r2) <- de_Message r1 ;;
    Ok ((selector, m), r2).

(** *** Chains that stop short

    [t] followed by [rest]: none of the descriptors is final, and the
    simulation of each but the last returns the one that follows. *)
Fixpoint unfinished (simulate : RelayerTransaction -> option (list byte))
  (t : RelayerTransaction) (rest : list RelayerTransaction) : Prop :=
  match rest with
  | [] => is_final t = false
  | t' :: rest' =>
      is_final t = false /\ next simulate t = Some t' /\
      unfinished simulate t' rest'
  end.

End DiscoveryMore.

(** ** The tables of the gateway IDL *)

Module GatewayIdl.

Local Open Scope string_scope.

Inductive IdlType : Type :=
| TU8
| TU16
| TU64
| TU128
| TBytes
| TString
| TPublicKey
| TDefined (name : string)
| TArray (t : IdlType) (n : nat)
| TVec (t : IdlType).

Record IdlField : Type := {
  field_name : string;
  field_type : IdlType
}.

Record IdlAccount : Type := {
  account_name : string;
  isMut : bool;
  isSigner : bool;
  isOptional : option bool
}.

Record IdlInstruction : Type := {
  instruction_name : string;
  accounts : list IdlAccount;
  args : list IdlField
}.

Record IdlEnumVariant : Type := {
  variant_name : string;
  variant_fields : list IdlType
}.

Inductive IdlTypeKind : Type :=
| Struct (fields : list IdlField)
| Enum (variants : list IdlEnumVariant).

Record IdlTypeDef : Type := {
  type_name : string;
  type_kind : IdlTypeKind
}.

Record IdlErrorCode : Type := {
  code : nat;
  error_name : string;
  msg : string
}.

(** [IDL.instructions], [IDL.types] and [IDL.errors]. *)
Definition IDL_instructions : list IdlInstruction :=
  [ {| instruction_name := "approveMessage";
       accounts :=
         [ {| account_name := "gatewayRootPda"; isMut := false; isSigner := false; isOptional := None |};
           {| account_name := "payer"; isMut := true; isSigner := true; isOptional := None |};
           {| account_name := "verificationSessionPda"; isMut := false; isSigner := false; isOptional := None |};
           {| account_name := "incomingMessagePda"; isMut := true; isSigner := false; isOptional := None |};
           {| account_name := "systemProgram"; isMut := false; isSigner := false; isOptional := None |} ];
       args :=
         [ {| field_name := "message"; field_type := (TDefined "MerkleisedMessage") |};
           {| field_name := "payloadMerkleRoot"; field_type := (TArray TU8 32) |} ] |};
    {| instruction_name := "rotateSigners";
       accounts :=
         [ {| account_name := "gatewayRootPda"; isMut := true; isSigner := false; isOptional := None |};
           {| account_name := "verificationSessionAccount"; isMut := false; isSigner := false; isOptional := None |};
           {| account_name := "currentVerifierSetTrackerPda"; isMut := false; isSigner := false; isOptional := None |};
           {| account_name := "newVerifierSetTrackerPda"; isMut := true; isSigner := false; isOptional := None |};
           {| account_name := "payer"; isMut := true; isSigner := true; isOptional := None |};
           {| account_name := "operator"; isMut := true; isSigner := true; isOptional := Some true |};
           {| account_name := "systemProgram"; isMut := false; isSigner := false; isOptional := None |} ];
       args :=
         [ {| field_name := "newVerifierSetMerkleRoot"; field_type := (TArray TU8 32) |} ] |};
    {| instruction_name := "callContract";
       accounts :=
         [ {| account_name := "senderProgram"; isMut := false; isSigner := false; isOptional := None |};
           {| account_name := "senderCallContractPda"; isMut := false; isSigner := true; isOptional := None |};
           {| account_name := "gatewayRootPda"; isMut := false; isSigner := false; isOptional := None |} ];
       args :=
         [ {| field_name := "destinationChain"; field_type := TString |};
           {| field_name := "destinationContractAddress"; field_type := TString |};
           {| field_name := "payload"; field_type := TBytes |};
           {| field_name := "signingPdaBump"; field_type := TU8 |} ] |};
    {| instruction_name := "callContractOffchainData";
       accounts :=
         [ {| account_name := "senderProgram"; isMut := false; isSigner := false; isOptional := None |};
           {| account_name := "senderCallContractPda"; isMut := false; isSigner := true; isOptional := None |};
           {| account_name := "gatewayRootPda"; isMut := false; isSigner := false; isOptional := None |} ];
       args :=
         [ {| field_name := "destinationChain"; field_type := TString |};
           {| field_name := "destinationContractAddress"; field_type := TString |};
           {| field_name := "payloadHash"; field_type := (TArray TU8 32) |};
           {| field_name := "signingPdaBump"; field_type := TU8 |} ] |};
    {| instruction_name := "initializeConfig";
       accounts :=
         [ {| account_name := "payer"; isMut := true; isSigner := true; isOptional := None |};
           {| account_name := "upgradeAuthority"; isMut := false; isSigner := true; isOptional := None |};
           {| account_name := "gatewayProgramData"; isMut := false; isSigner := false; isOptional := None |};
           {| account_name := "gatewayConfigPda"; isMut := true; isSigner := false; isOptional := None |};
           {| account_name := "systemProgram"; isMut := false; isSigner := false; isOptional := None |} ];
       args :=
         [ {| field_name := "domainSeparator"; field_type := (TArray TU8 32) |};
           {| field_name := "initialSignerSets"; field_type := (TVec (TArray TU8 32)) |};
           {| field_name := "minimumRotationDelay"; field_type := TU64 |};
           {| field_name := "operator"; field_type := TPublicKey |};
           {| field_name := "previousVerifierRetention"; field_type := (TDefined "U256") |} ] |};
    {| instruction_name := "initializePayloadVerificationSession";
       accounts :=
         [ {| account_name := "payer"; isMut := true; isSigner := true; isOptional := None |};
           {| account_name := "gatewayConfigPda"; isMut := false; isSigner := false; isOptional := None |};
           {| account_name := "verificationSessionPda"; isMut := true; isSigner := false; isOptional := None |};
           {| account_name := "systemProgram"; isMut := false; isSigner := false; isOptional := None |} ];
       args :=
         [ {| field_name := "payloadMerkleRoot"; field_type := (TArray TU8 32) |} ] |};
    {| instruction_name := "verifySignature";
       accounts :=
         [ {| account_name := "gatewayConfigPda"; isMut := false; isSigner := false; isOptional := None |};
           {| account_name := "verificationSessionPda"; isMut := true; isSigner := false; isOptional := None |};
           {| account_name := "verifierSetTrackerPda"; isMut := false; isSigner := false; isOptional := None |} ];
       args :=
         [ {| field_name := "payloadMerkleRoot"; field_type := (TArray TU8 32) |};
           {| field_name := "verifierInfo"; field_type := (TDefined "SigningVerifierSetInfo") |} ] |};
    {| instruction_name := "initializeMessagePayload";
       accounts :=
         [ {| account_name := "payer"; isMut := true; isSigner := true; isOptional := None |};
           {| account_name := "gatewayRootPda"; isMut := false; isSigner := false; isOptional := None |};
           {| account_name := "incomingMessagePda"; isMut := false; isSigner := false; isOptional := None |};
           {| account_name := "messagePayloadPda"; isMut := true; isSigner := false; isOptional := None |};
           {| account_name := "systemProgram"; isMut := false; isSigner := false; isOptional := None |} ];
       args :=
         [ {| field_name := "bufferSize"; field_type := TU64 |};
           {| field_name := "commandId"; field_type := (TArray TU8 32) |} ] |};
    {| instruction_name := "writeMessagePayload";
       accounts :=
         [ {| account_name := "authority"; isMut := true; isSigner := true; isOptional := None |};
           {| account_name := "gatewayRootPda"; isMut := false; isSigner := false; isOptional := None |};
           {| account_name := "incomingMessagePda"; isMut := false; isSigner := false; isOptional := None |};
           {| account_name := "messagePayloadPda"; isMut := true; isSigner := false; isOptional := None |} ];
       args :=
         [ {| field_name := "offset"; field_type := TU64 |};
           {| field_name := "bytes"; field_type := TBytes |};
           {| field_name := "commandId"; field_type := (TArray TU8 32) |} ] |};
    {| instruction_name := "commitMessagePayload";
       accounts :=
         [ {| account_name := "authority"; isMut := true; isSigner := true; isOptional := None |};
           {| account_name := "gatewayRootPda"; isMut := false; isSigner := false; isOptional := None |};
           {| account_name := "incomingMessagePda"; isMut := false; isSigner := false; isOptional := None |};
           {| account_name := "messagePayloadPda"; isMut := true; isSigner := false; isOptional := None |} ];
       args :=
         [ {| field_name := "commandId"; field_type := (TArray TU8 32) |} ] |};
    {| instruction_name := "closeMessagePayload";
       accounts :=
         [ {| account_name := "authority"; isMut := true; isSigner := false; isOptional := None |};
           {| account_name := "gatewayRootPda"; isMut := false; isSigner := false; isOptional := None |};
           {| account_name := "incomingMessagePda"; isMut := false; isSigner := false; isOptional := None |};
           {| account_name := "messagePayloadPda"; isMut := true; isSigner := false; isOptional := None |} ];
       args :=
         [ {| field_name := "commandId"; field_type := (TArray TU8 32) |} ] |};
    {| instruction_name := "validateMessage";
       accounts :=
         [ {| account_name := "incomingMessagePda"; isMut := true; isSigner := false; isOptional := None |};
           {| account_name := "signingPda"; isMut := false; isSigner := true; isOptional := None |} ];
       args :=
         [ {| field_name := "message"; field_type := (TDefined "Message") |} ] |};
    {| instruction_name := "transferOperatorship";
       accounts :=
         [ {| account_name := "gatewayRootPda"; isMut := true; isSigner := false; isOptional := None |};
           {| account_name := "currentOperatorOrGatewayProgramOwner"; isMut := false; isSigner := true; isOptional := None |};
           {| account_name := "programdata"; isMut := false; isSigner := false; isOptional := None |};
           {| account_name := "newOperator"; isMut := false; isSigner := false; isOptional := None |} ];
       args :=
         [] |} ].

Definition IDL_types : list IdlTypeDef :=
  [ {| type_name := "MerkleisedMessage";
       type_kind :=
         Struct
           [ {| field_name := "leaf"; field_type := (TDefined "MessageLeaf") |};
             {| field_name := "proof"; field_type := TBytes |} ] |};
    {| type_name := "MessageLeaf";
       type_kind :=
         Struct
           [ {| field_name := "message"; field_type := (TDefined "Message") |};
             {| field_name := "position"; field_type := TU16 |};
             {| field_name := "setSize"; field_type := TU16 |};
             {| field_name := "domainSeparator"; field_type := (TArray TU8 32) |};
             {| field_name := "signingVerifierSet"; field_type := (TArray TU8 32) |} ] |};
    {| type_name := "Message";
       type_kind :=
         Struct
           [ {| field_name := "ccId"; field_type := (TDefined "CrossChainId") |};
             {| field_name := "sourceAddress"; field_type := TString |};
             {| field_name := "destinationChain"; field_type := TString |};
             {| field_name := "destinationAddress"; field_type := TString |};
             {| field_name := "payloadHash"; field_type := (TArray TU8 32) |} ] |};
    {| type_name := "CrossChainId";
       type_kind :=
         Struct
           [ {| field_name := "chain"; field_type := TString |};
             {| field_name := "id"; field_type := TString |} ] |};
    {| type_name := "SigningVerifierSetInfo";
       type_kind :=
         Struct
           [ {| field_name := "signature"; field_type := (TDefined "Signature") |};
             {| field_name := "leaf"; field_type := (TDefined "VerifierSetLeaf") |};
             {| field_name := "merkleProof"; field_type := TBytes |} ] |};
    {| type_name := "VerifierSetLeaf";
       type_kind :=
         Struct
           [ {| field_name := "nonce"; field_type := TU64 |};
             {| field_name := "quorum"; field_type := TU128 |};
             {| field_name := "signerPubkey"; field_type := (TDefined "PublicKey") |};
             {| field_name := "signerWeight"; field_type := TU128 |};
             {| field_name := "position"; field_type := TU16 |};
             {| field_name := "setSize"; field_type := TU16 |};
             {| field_name := "domainSeparator"; field_type := (TArray TU8 32) |} ] |};
    {| type_name := "U256";
       type_kind :=
         Struct
           [ {| field_name := "value"; field_type := (TArray TU64 4) |} ] |};
    {| type_name := "PublicKey";
       type_kind :=
         Enum
           [ {| variant_name := "Secp256k1"; variant_fields := [ (TArray TU8 33) ] |};
             {| variant_name := "Ed25519"; variant_fields := [ (TArray TU8 32) ] |} ] |};
    {| type_name := "Signature";
       type_kind :=
         Enum
           [ {| variant_name := "EcdsaRecoverable"; variant_fields := [ (TArray TU8 65) ] |};
             {| variant_name := "Ed25519"; variant_fields := [ (TArray TU8 64) ] |} ] |} ].

Definition IDL_errors : list IdlErrorCode :=
  [ {| code := 0; error_name := "VerifierSetAlreadyInitialised";
       msg := "Verifier set already initialized" |};
    {| code := 1; error_name := "SlotAlreadyVerified";
       msg := "Slot has been previously verified" |};
    {| code := 2; error_name := "MessageAlreadyInitialised";
       msg := "Message already initialized" |};
    {| code := 3; error_name := "VerificationSessionPDAInitialised";
       msg := "Verification session PDA already initialized" |};
    {| code := 4; error_name := "VerifierSetTrackerAlreadyInitialised";
       msg := "Verifier set tracker PDA already initialized" |};
    {| code := 5; error_name := "SlotIsOutOfBounds";
       msg := "Slot is out of bounds" |};
    {| code := 6; error_name := "InvalidDigitalSignature";
       msg := "Digital signature verification failed" |};
    {| code := 7; error_name := "LeafNodeNotPartOfMerkleRoot";
       msg := "Leaf node not part of Merkle root" |};
    {| code := 8; error_name := "InvalidMerkleProof";
       msg := "Signer is not a member of the active verifier set" |};
    {| code := 9; error_name := "InvalidDestinationAddress";
       msg := "Invalid destination address" |};
    {| code := 10; error_name := "MessagePayloadAlreadyInitialized";
       msg := "Message Payload PDA was already initialized" |};
    {| code := 11; error_name := "MessagePayloadAlreadyCommitted";
       msg := "Message Payload has already been committed" |};
    {| code := 12; error_name := "EpochCalculationOverflow";
       msg := "Epoch calculation resulted in an underflow" |};
    {| code := 13; error_name := "VerifierSetTooOld";
       msg := "Verifier set too old" |};
    {| code := 14; error_name := "BytemuckDataLenInvalid";
       msg := "Invalid bytemucked data length" |};
    {| code := 15; error_name := "SigningSessionNotValid";
       msg := "Signing session not valid" |};
    {| code := 16; error_name := "InvalidVerificationSessionPDA";
       msg := "Invalid verification session PDA" |};
    {| code := 17; error_name := "InvalidVerifierSetTrackerProvided";
       msg := "Invalid verifier set tracker provided" |};
    {| code := 18; error_name := "ProofNotSignedByLatestVerifierSet";
       msg := "Proof not signed by latest verifier set" |};
    {| code := 19; error_name := "RotationCooldownNotDone";
       msg := "Rotation cooldown not done" |};
    {| code := 20; error_name := "InvalidProgramDataDerivation";
       msg := "Invalid program data derivation" |};
    {| code := 21; error_name := "InvalidLoaderContent";
       msg := "Invalid loader content" |};
    {| code := 22; error_name := "InvalidLoaderState";
       msg := "Invalid loader state" |};
    {| code := 23; error_name := "OperatorOrUpgradeAuthorityMustBeSigner";
       msg := "Operator or upgrade authority must be signer" |};
    {| code := 24; error_name := "InvalidOperatorOrAuthorityAccount";
       msg := "Invalid operator or authority account" |};
    {| code := 25; error_name := "MessageNotApproved";
       msg := "Message not approved" |};
    {| code := 26; error_name := "MessageHasBeenTamperedWith";
       msg := "Message has been tampered with" |};
    {| code := 27; error_name := "InvalidSigningPDA";
       msg := "Invalid signing PDA" |};
    {| code := 28; error_name := "CallerNotSigner";
       msg := "Caller not signer" |} ].

(** The names of the user-defined types a type mentions. *)
Fixpoint defined_in (t : IdlType) : list string :=
  match t with
  | TDefined name => [name]
  | TArray t' _ => defined_in t'
  | TVec t' => defined_in t'
  | _ => []
  end.

(** The types of the fields of a declared type. *)
Definition types_of (k : IdlTypeKind) : list IdlType :=
  match k with
  | Struct fields => map field_type fields
  | Enum variants => flat_map variant_fields variants
  end.

(** Every type the IDL mentions, in the arguments of its instructions and in
    the fields of its declared types. *)
Definition mentioned_types : list IdlType :=
  flat_map (fun i => map field_type (args i)) IDL_instructions ++
  flat_map (fun d => types_of (type_kind d)) IDL_types.

Definition all_accounts : list IdlAccount := flat_map accounts IDL_instructions.

Fixpoint nodupb (l : list string) : bool :=
  match l with
  | [] => true
  | x :: l' => negb (existsb (String.eqb x) l') && nodupb l'
  end.

End GatewayIdl.

(** * Facts about the wire primitives *)

Import Borsh.

Lemma bind_ok {A B} (r : result A) (k : A -> result B) (b : B) :
  bind r k = Ok b -> exists a, r = Ok a /\ k a = Ok b.
Proof.
  destruct r as [a | e]; simpl; intros H; [eauto | discriminate].
Qed.

Lemma byte_of_to_N (b : byte) : byte_of_N (Byte.to_N b) = b.
Proof.
  unfold byte_of_N.
  pose proof (Byte.to_N_bounded b) as Hb.
  rewrite N.mod_small by lia.
  now rewrite Byte.of_to_N.
Qed.

Lemma to_N_byte_of_N (n : N) : Byte.to_N (byte_of_N n) = (n mod 256)%N.
Proof.
  unfold byte_of_N.
  destruct (Byte.of_N (n mod 256)) as [b |] eqn:E.
  - now apply Byte.to_of_N.
  - pose proof (Byte.to_of_N_option_map (n mod 256)) as H.
    rewrite E in H; simpl in H.
    pose proof (N.mod_upper_bound n 256 ltac:(lia)) as Hlt.
    destruct (N.leb_spec (n mod 256) 255); [discriminate | lia].
Qed.

Lemma length_to_le (k : nat) (n : N) : length (to_le k n) = k.
Proof.
  revert n; induction k as [| k IH]; intros n; simpl; [reflexivity |].
  now rewrite IH.
Qed.

Lemma of_le_to_le (k : nat) (n : N) :
  (n < 256 ^ N.of_nat k)%N -> of_le (to_le k n) = n.
Proof.
  revert n; induction k as [| k IH]; intros n Hn.
  - simpl in *. lia.
  - cbn [to_le of_le].
    rewrite to_N_byte_of_N, IH.
    + rewrite N.add_comm. symmetry. rewrite N.mul_comm.
      rewrite (N.div_mod n 256) at 1 by lia. lia.
    + rewrite Nat2N.inj_succ, N.pow_succ_r' in Hn.
      apply N.Div0.div_lt_upper_bound. lia.
Qed.

Lemma of_le_bound (bs : list byte) :
  (of_le bs < 256 ^ N.of_nat (length bs))%N.
Proof.
  induction bs as [| b bs IH].
  - simpl. lia.
  - cbn [of_le length]. rewrite Nat2N.inj_succ, N.pow_succ_r'.
    pose proof (Byte.to_N_bounded b). lia.
Qed.

Lemma to_le_of_le (bs : list byte) : to_le (length bs) (of_le bs) = bs.
Proof.
  induction bs as [| b bs IH]; [reflexivity |].
  cbn [of_le length to_le].
  pose proof (Byte.to_N_bounded b) as Hb.
  f_equal.
  - unfold byte_of_N.
    replace ((Byte.to_N b + 256 * of_le bs) mod 256)%N with (Byte.to_N b).
    + now rewrite Byte.of_to_N.
    + replace (Byte.to_N b + 256 * of_le bs)%N
        with (Byte.to_N b + of_le bs * 256)%N by lia.
      rewrite N.Div0.mod_add.
      symmetry; apply N.mod_small; lia.
  - replace ((Byte.to_N b + 256 * of_le bs) / 256)%N with (of_le bs); [exact IH |].
    replace (Byte.to_N b + 256 * of_le bs)%N
      with (Byte.to_N b + of_le bs * 256)%N by lia.
    rewrite N.div_add by lia.
    rewrite (N.div_small (Byte.to_N b)) by lia. lia.
Qed.

Lemma take_app (k : nat) (xs rest : list byte) :
  length xs = k -> take k (xs ++ rest) = Ok (xs, rest).
Proof.
  intros <-. unfold take.
  rewrite length_app.
  destruct (Nat.ltb_spec (length xs + length rest) (length xs)); [lia |].
  rewrite firstn_app, skipn_app, Nat.sub_diag, firstn_all, skipn_all.
  simpl. now rewrite app_nil_r.
Qed.

Lemma take_ok (k : nat) (bs h rest : list byte) :
  take k bs = Ok (h, rest) -> bs = h ++ rest /\ length h = k.
Proof.
  unfold take.
  destruct (Nat.ltb_spec (length bs) k) as [Hlt | Hge]; [discriminate |].
  intros [= <- <-]. split.
  - symmetry; apply firstn_skipn.
  - now apply firstn_length_le.
Qed.

Lemma take_short (k : nat) (bs : list byte) :
  length bs < k -> take k bs = Err UnexpectedEof.
Proof.
  intros H. unfold take. now destruct (Nat.ltb_spec (length bs) k); [| lia].
Qed.

Lemma Laws_u8 : Laws (fun _ => True) ser_u8 de_u8.
Proof.
  split.
  - reflexivity.
  - intros [| b bs] x rest; simpl; [discriminate |].
    intros [= <- <-]. now split.
  - simpl; lia.
Qed.

Section FixedWidth.

Variable k : nat.

Lemma Laws_le :
  0 < k ->
  Laws (fun n => (n < 256 ^ N.of_nat k)%N) (to_le k) (de_le k).
Proof.
  intros Hk. split.
  - intros n rest Hn. unfold de_le.
    rewrite take_app by apply length_to_le. simpl.
    now rewrite of_le_to_le.
  - intros bs n rest H. unfold de_le in H.
    apply bind_ok in H as ([h r] & Ht & [= <- <-]).
    apply take_ok in Ht as [-> Hlen]. split.
    + rewrite <- Hlen. apply of_le_bound.
    + now rewrite <- Hlen, to_le_of_le.
  - intros n _. rewrite length_to_le. lia.
Qed.

End FixedWidth.

Lemma Laws_u32 : Laws (fun n => (n < 2 ^ 32)%N) ser_u32 de_u32.
Proof. exact (@Laws_le 4 ltac:(lia)). Qed.

Lemma Laws_u64 : Laws (fun n => (n < 2 ^ 64)%N) ser_u64 de_u64.
Proof. exact (@Laws_le 8 ltac:(lia)). Qed.

Lemma Laws_bool : Laws (fun _ => True) ser_bool de_bool.
Proof.
  split.
  - now intros [|] rest _.
  - intros [| b bs] x rest; simpl; [discriminate |].
    destruct b; try discriminate; intros [= <- <-]; now split.
  - simpl; lia.
Qed.

(** Sequences and vectors of elements that obey the laws. *)
Section Vectors.

Context {A : Type}.
Variables (wf : A -> Prop) (ser : A -> list byte) (de : reader A).
Hypothesis L : Laws wf ser de.

Lemma length_ser_seq (xs : list A) :
  Forall wf xs -> length xs <= length (ser_seq ser xs).
Proof.
  unfold ser_seq. induction 1 as [| x xs Hx _ IH]; simpl; [lia |].
  rewrite length_app. pose proof (ser_nonempty L x Hx). lia.
Qed.

Lemma de_seq_ser (xs : list A) (rest : list byte) :
  Forall wf xs ->
  de_seq de (length xs) (ser_seq ser xs ++ rest) = Ok (xs, rest).
Proof.
  unfold ser_seq. induction 1 as [| x xs Hx _ IH]; simpl; [reflexivity |].
  rewrite <- app_assoc, (de_ser L) by assumption. simpl.
  now rewrite IH.
Qed.

Lemma de_seq_ok (n : nat) (bs : list byte) (xs : list A) (rest : list byte) :
  de_seq de n bs = Ok (xs, rest) ->
  length xs = n /\ Forall wf xs /\ bs = ser_seq ser xs ++ rest.
Proof.
  unfold ser_seq. revert bs xs.
  induction n as [| n IH]; intros bs xs; simpl.
  - intros [= <- <-]. now repeat split.
  - intros H.
    apply bind_ok in H as ([x r] & Hx & H).
    apply bind_ok in H as ([ys r'] & Hys & [= <- <-]).
    apply (ser_de L) in Hx as [Hwf ->].
    apply IH in Hys as (Hlen & Hall & ->).
    simpl. rewrite <- app_assoc. repeat split; auto.
Qed.

(** Once the well-formed elements in front are read, the reader is at the
    next element; an error there is the error of the whole sequence. *)
Lemma de_seq_err (n : nat) (pre : list A) (rest : list byte) (e : DecodeError) :
  Forall wf pre -> length pre < n ->
  de rest = Err e ->
  de_seq de n (ser_seq ser pre ++ rest) = Err e.
Proof.
  unfold ser_seq. intros Hpre. revert n.
  induction Hpre as [| x pre Hx _ IH]; intros n Hn Herr.
  - destruct n as [| n]; [simpl in Hn; lia |]. simpl. now rewrite Herr.
  - destruct n as [| n]; [simpl in Hn; lia |]. simpl.
    rewrite <- app_assoc, (de_ser L) by assumption. simpl.
    rewrite IH; [reflexivity | simpl in Hn; lia | assumption].
Qed.

Lemma de_vec_ser (xs : list A) (rest : list byte) :
  wf_vec wf xs -> de_vec de (ser_vec ser xs ++ rest) = Ok (xs, rest).
Proof.
  intros [Hlen Hall]. unfold de_vec, ser_vec.
  rewrite <- app_assoc, (de_ser Laws_u32) by assumption. simpl.
  pose proof (length_ser_seq Hall) as Hle.
  destruct (N.ltb_spec (N.of_nat (length (ser_seq ser xs ++ rest)))
              (N.of_nat (length xs))) as [Hlt | _].
  - rewrite length_app in Hlt. lia.
  - rewrite Nat2N.id. now apply de_seq_ser.
Qed.

Lemma de_vec_ok (bs : list byte) (xs : list A) (rest : list byte) :
  de_vec de bs = Ok (xs, rest) ->
  wf_vec wf xs /\ bs = ser_vec ser xs ++ rest.
Proof.
  unfold de_vec, ser_vec. intros H.
  apply bind_ok in H as ([n r] & Hn & H).
  apply (ser_de Laws_u32) in Hn as [Hwf ->].
  destruct (N.ltb_spec (N.of_nat (length r)) n); [discriminate |].
  apply de_seq_ok in H as (Hlen & Hall & ->).
  rewrite Hlen, N2Nat.id, <- app_assoc. repeat split; auto.
  red. now rewrite Hlen, N2Nat.id.
Qed.

Lemma Laws_vec : Laws (wf_vec wf) (ser_vec ser) (de_vec de).
Proof.
  split.
  - intros; now apply de_vec_ser.
  - intros; now apply de_vec_ok.
  - intros xs _. unfold ser_vec, ser_u32.
    rewrite length_app, length_to_le. lia.
Qed.

(** A count that promises more elements than there are bytes left. *)
Lemma de_vec_count_exceeds (n : N) (rest : list byte) :
  (n < 2 ^ 32)%N -> (N.of_nat (length rest) < n)%N ->
  de_vec de (ser_u32 n ++ rest) = Err LengthExceedsInput.
Proof.
  intros Hn Hlt. unfold de_vec.
  rewrite (de_ser Laws_u32) by assumption. simpl.
  now destruct (N.ltb_spec (N.of_nat (length rest)) n); [| lia].
Qed.

(** The count is in range, the elements in front are well formed, and the
    next element does not decode. *)
Lemma de_vec_err (n : N) (pre : list A) (rest : list byte) :
  (n < 2 ^ 32)%N -> Forall wf pre -> (N.of_nat (length pre) < n)%N ->
  is_err (de rest) ->
  is_err (de_vec de (ser_u32 n ++ ser_seq ser pre ++ rest)).
Proof.
  intros Hn Hpre Hlt [e He]. unfold de_vec.
  rewrite (de_ser Laws_u32) by assumption. simpl.
  destruct (N.ltb_spec (N.of_nat (length (ser_seq ser pre ++ rest))) n).
  - now exists LengthExceedsInput.
  - exists e. apply de_seq_err; [assumption | lia | assumption].
Qed.

End Vectors.

(** * The codec of the discovery structures *)

Import Discovery.

Lemma Laws_Pubkey : Laws wf_Pubkey ser_Pubkey de_Pubkey.
Proof.
  split.
  - intros k rest Hk. now apply take_app.
  - intros bs k rest H. apply take_ok in H as [-> Hlen]. now split.
  - intros k Hk. unfold ser_Pubkey. rewrite Hk. lia.
Qed.

Lemma Laws_AccountMeta : Laws wf_AccountMeta ser_AccountMeta de_AccountMeta.
Proof.
  split.
  - intros [k s w] rest Hk. unfold ser_AccountMeta, de_AccountMeta. cbn [pubkey is_signer is_writable].
    rewrite <- !app_assoc.
    rewrite (de_ser Laws_Pubkey) by exact Hk. cbn [bind].
    rewrite (de_ser Laws_bool) by exact I. cbn [bind].
    now rewrite (de_ser Laws_bool) by exact I.
  - intros bs m rest H. unfold de_AccountMeta in H.
    apply bind_ok in H as ([k r1] & Hk & H).
    apply bind_ok in H as ([s r2] & Hs & H).
    apply bind_ok in H as ([w r3] & Hw & [= <- <-]).
    apply (ser_de Laws_Pubkey) in Hk as [Hwf ->].
    apply (ser_de Laws_bool) in Hs as [_ ->].
    apply (ser_de Laws_bool) in Hw as [_ ->].
    unfold ser_AccountMeta. cbn [pubkey is_signer is_writable].
    rewrite <- !app_assoc. now split.
  - intros m Hm. unfold ser_AccountMeta. rewrite !length_app. simpl. lia.
Qed.

Lemma Laws_RelayerData : Laws wf_RelayerData ser_RelayerData de_RelayerData.
Proof.
  split.
  - intros [b |] rest Hwf; [| reflexivity].
    unfold de_RelayerData. cbn [ser_RelayerData app de_u8 bind].
    now rewrite (de_ser (Laws_vec Laws_u8)).
  - intros [| tag bs] d rest; [discriminate |].
    unfold de_RelayerData. simpl.
    destruct tag; try discriminate.
    + intros H. apply bind_ok in H as ([b r] & Hb & [= <- <-]).
      apply (ser_de (Laws_vec Laws_u8)) in Hb as [Hwf ->]. now split.
    + intros [= <- <-]. now split.
  - intros [b |] _; simpl; lia.
Qed.

Lemma Laws_RelayerAccount :
  Laws wf_RelayerAccount ser_RelayerAccount de_RelayerAccount.
Proof.
  split.
  - intros [m | | | l] rest Hwf; try reflexivity;
      unfold de_RelayerAccount; cbn [ser_RelayerAccount app de_u8 bind].
    + now rewrite (de_ser Laws_AccountMeta).
    + now rewrite (de_ser Laws_u64).
  - intros [| tag bs] a rest; [discriminate |].
    unfold de_RelayerAccount. simpl.
    destruct tag; try discriminate.
    + intros H. apply bind_ok in H as ([m r] & Hm & [= <- <-]).
      apply (ser_de Laws_AccountMeta) in Hm as [Hwf ->]. now split.
    + intros [= <- <-]. now split.
    + intros [= <- <-]. now split.
    + intros H. apply bind_ok in H as ([l r] & Hl & [= <- <-]).
      apply (ser_de Laws_u64) in Hl as [Hwf ->]. now split.
  - intros [m | | | l] _; simpl; lia.
Qed.

Lemma Laws_RelayerInstruction :
  Laws wf_RelayerInstruction ser_RelayerInstruction de_RelayerInstruction.
Proof.
  split.
  - intros [p a d] rest (Hp & Ha & Hd).
    unfold ser_RelayerInstruction, de_RelayerInstruction, wf_RelayerInstruction in *.
    cbn [program accounts data] in *.
    rewrite <- !app_assoc.
    rewrite (de_ser Laws_Pubkey) by exact Hp. cbn [bind].
    rewrite (de_ser (Laws_vec Laws_RelayerAccount)) by exact Ha. cbn [bind].
    now rewrite (de_ser (Laws_vec Laws_RelayerData)) by exact Hd.
  - intros bs i rest H. unfold de_RelayerInstruction in H.
    apply bind_ok in H as ([p r1] & Hp & H).
    apply bind_ok in H as ([a r2] & Ha & H).
    apply bind_ok in H as ([d r3] & Hd & [= <- <-]).
    apply (ser_de Laws_Pubkey) in Hp as [Hwp ->].
    apply (ser_de (Laws_vec Laws_RelayerAccount)) in Ha as [Hwa ->].
    apply (ser_de (Laws_vec Laws_RelayerData)) in Hd as [Hwd ->].
    unfold ser_RelayerInstruction, wf_RelayerInstruction.
    cbn [program accounts data].
    rewrite <- !app_assoc. split; [auto | reflexivity].
  - intros i (Hp & _). unfold ser_RelayerInstruction.
    rewrite length_app. unfold ser_Pubkey. rewrite Hp. lia.
Qed.

Lemma Laws_RelayerTransaction :
  Laws wf_RelayerTransaction ser_RelayerTransaction de_RelayerTransaction.
Proof.
  split.
  - intros [f i] rest Hi.
    unfold ser_RelayerTransaction, de_RelayerTransaction, wf_RelayerTransaction in *.
    cbn [is_final instructions] in *.
    rewrite <- !app_assoc.
    rewrite (de_ser Laws_bool) by exact I. cbn [bind].
    now rewrite (de_ser (Laws_vec Laws_RelayerInstruction)) by exact Hi.
  - intros bs t rest H. unfold de_RelayerTransaction in H.
    apply bind_ok in H as ([f r1] & Hf & H).
    apply bind_ok in H as ([i r2] & Hi & [= <- <-]).
    apply (ser_de Laws_bool) in Hf as [_ ->].
    apply (ser_de (Laws_vec Laws_RelayerInstruction)) in Hi as [Hwi ->].
    unfold ser_RelayerTransaction, wf_RelayerTransaction.
    cbn [is_final instructions].
    rewrite <- !app_assoc. now split.
  - intros t _. unfold ser_RelayerTransaction. rewrite length_app. simpl. lia.
Qed.

(** ** Errors travel outwards *)

Lemma is_err_bind {A B} (r : result A) (k : A -> result B) :
  is_err r -> is_err (bind r k).
Proof. intros [e ->]. now exists e. Qed.

Lemma is_err_not_ok {A} (r : result A) : (forall a, r <> Ok a) -> is_err r.
Proof.
  destruct r as [a | e]; intros H; [now destruct (H a) | now exists e].
Qed.

Lemma decode_err (bs : list byte) :
  is_err (de_RelayerTransaction bs) -> is_err (decode bs).
Proof. apply is_err_bind. Qed.

Lemma de_RelayerTransaction_at_instruction f n pre rest :
  (n < 2 ^ 32)%N -> Forall wf_RelayerInstruction pre ->
  (N.of_nat (length pre) < n)%N ->
  is_err (de_RelayerInstruction rest) ->
  is_err (de_RelayerTransaction (at_instruction f n pre rest)).
Proof.
  intros Hn Hpre Hlt Herr. unfold de_RelayerTransaction, at_instruction.
  rewrite (de_ser Laws_bool) by exact I. cbn [bind].
  apply is_err_bind.
  now apply (de_vec_err Laws_RelayerInstruction).
Qed.

Lemma de_RelayerInstruction_at_account p k pre rest :
  wf_Pubkey p -> (k < 2 ^ 32)%N -> Forall wf_RelayerAccount pre ->
  (N.of_nat (length pre) < k)%N ->
  is_err (de_RelayerAccount rest) ->
  is_err (de_RelayerInstruction (at_account p k pre rest)).
Proof.
  intros Hp Hk Hpre Hlt Herr. unfold de_RelayerInstruction, at_account.
  rewrite (de_ser Laws_Pubkey) by exact Hp. cbn [bind].
  apply is_err_bind.
  now apply (de_vec_err Laws_RelayerAccount).
Qed.

Lemma de_RelayerInstruction_at_data p accts k pre rest :
  wf_Pubkey p -> wf_vec wf_RelayerAccount accts ->
  (k < 2 ^ 32)%N -> Forall wf_RelayerData pre ->
  (N.of_nat (length pre) < k)%N ->
  is_err (de_RelayerData rest) ->
  is_err (de_RelayerInstruction (at_data p accts k pre rest)).
Proof.
  intros Hp Ha Hk Hpre Hlt Herr. unfold de_RelayerInstruction, at_data.
  rewrite (de_ser Laws_Pubkey) by exact Hp. cbn [bind].
  rewrite (de_ser (Laws_vec Laws_RelayerAccount)) by exact Ha. cbn [bind].
  apply is_err_bind.
  now apply (de_vec_err Laws_RelayerData).
Qed.

Lemma de_RelayerAccount_bad_tag tag rest :
  (3 < Byte.to_N tag)%N -> is_err (de_RelayerAccount (tag :: rest)).
Proof.
  intros H. exists InvalidDiscriminant.
  unfold de_RelayerAccount. cbn [de_u8 bind].
  destruct tag; try reflexivity; vm_compute in H; discriminate.
Qed.

Lemma de_RelayerData_bad_tag tag rest :
  (1 < Byte.to_N tag)%N -> is_err (de_RelayerData (tag :: rest)).
Proof.
  intros H. exists InvalidDiscriminant.
  unfold de_RelayerData. cbn [de_u8 bind].
  destruct tag; try reflexivity; vm_compute in H; discriminate.
Qed.

(** A strict prefix of an encoding is not accepted. *)
Lemma decode_truncated t p s :
  wf_RelayerTransaction t -> encode t = p ++ s -> s <> [] ->
  is_err (decode p).
Proof.
  intros Hwf Hsplit Hs. apply decode_err, is_err_not_ok.
  intros [t' r] Hdec.
  apply (ser_de Laws_RelayerTransaction) in Hdec as [Hwf' ->].
  pose proof (de_ser Laws_RelayerTransaction t' (r ++ s) Hwf') as H1.
  pose proof (de_ser Laws_RelayerTransaction t [] Hwf) as H2.
  unfold encode in Hsplit.
  rewrite app_nil_r, Hsplit, <- app_assoc, H1 in H2.
  injection H2 as _ Hnil.
  apply app_eq_nil in Hnil as [_ ->]. now apply Hs.
Qed.

(** * The wire codec *)

Ltac wf_by_computation :=
  repeat match goal with
         | |- _ /\ _ => split
         | |- Forall _ _ => constructor
         | |- wf_RelayerTransaction _ => red
         | |- wf_RelayerInstruction _ => red
         | |- wf_vec _ _ => red
         | |- wf_RelayerAccount _ => red
         | |- wf_RelayerData _ => red
         | |- wf_AccountMeta _ => red
         | |- wf_Pubkey _ => reflexivity
         | |- True => exact I
         | |- (_ < _)%N => reflexivity
         | _ => progress cbn
         end.

(** The layout on the transaction the document stores in the
    [transaction_pda]: the flag, one instruction, its program, one account
    entry ([MessagePayload]), one data chunk ([Bytes] of one byte). *)
Example encode_transaction_layout :
  encode ItsExample.round0
  = [x00] ++ [x01; x00; x00; x00] ++ repeat x11 32 ++
    [x01; x00; x00; x00] ++ [x02] ++
    [x01; x00; x00; x00] ++ [x00] ++ [x01; x00; x00; x00] ++ [x01].
Proof. reflexivity. Qed.

Lemma decode_encode_valid (x : RelayerTransaction) :
  valid_RelayerTransaction x -> decode (encode x) = Ok x.
Proof.
  intros [Hwf Hne]. unfold decode, encode.
  rewrite <- (app_nil_r (ser_RelayerTransaction x)).
  rewrite (de_ser Laws_RelayerTransaction) by exact Hwf. cbn [bind].
  destruct (instructions x); [now destruct Hne | reflexivity].
Qed.

(** C1. Round trip: for every valid [RelayerTransaction] [x] (keys of 32
    bytes, lamports below 2^64, sequences shorter than 2^32, at least one
    instruction), decoding the bytes produced by encoding [x] yields [x]
    again. *)
Theorem decode_encode (x : RelayerTransaction) :
  valid_RelayerTransaction x -> decode (encode x) = Ok x.
Proof. apply decode_encode_valid. Qed.

Lemma decode_encode_witness :
  valid_RelayerTransaction ItsExample.round2 /\
  decode (encode ItsExample.round2) = Ok ItsExample.round2.
Proof.
  assert (H : valid_RelayerTransaction ItsExample.round2)
    by (split; [wf_by_computation | discriminate]).
  split; [exact H | exact (decode_encode H)].
Defined.

(** C7. [decode] returns a decode error, not a descriptor, on an input that
    is truncated (a strict prefix of an encoding), that has an unrecognized
    discriminant where an account entry (a byte above 3) or a data chunk (a
    byte above 1) starts, or that has a length prefix (of the instructions,
    of the accounts, of the data, of a [Bytes] chunk) larger than the number
    of bytes that remain. *)
Theorem decode_rejects_malformed :
  (forall t p s,
      wf_RelayerTransaction t -> encode t = p ++ s -> s <> [] ->
      is_err (decode p)) /\
  (forall f n pre p k apre tag rest,
      (n < 2 ^ 32)%N -> Forall wf_RelayerInstruction pre ->
      (N.of_nat (length pre) < n)%N ->
      wf_Pubkey p -> (k < 2 ^ 32)%N -> Forall wf_RelayerAccount apre ->
      (N.of_nat (length apre) < k)%N ->
      (3 < Byte.to_N tag)%N ->
      is_err (decode (at_instruction f n pre
                        (at_account p k apre (tag :: rest))))) /\
  (forall f n pre p accts k dpre tag rest,
      (n < 2 ^ 32)%N -> Forall wf_RelayerInstruction pre ->
      (N.of_nat (length pre) < n)%N ->
      wf_Pubkey p -> wf_vec wf_RelayerAccount accts ->
      (k < 2 ^ 32)%N -> Forall wf_RelayerData dpre ->
      (N.of_nat (length dpre) < k)%N ->
      (1 < Byte.to_N tag)%N ->
      is_err (decode (at_instruction f n pre
                        (at_data p accts k dpre (tag :: rest))))) /\
  (forall f n rest,
      (n < 2 ^ 32)%N -> (N.of_nat (length rest) < n)%N ->
      is_err (decode (at_instruction f n [] rest))) /\
  (forall f n pre p k rest,
      (n < 2 ^ 32)%N -> Forall wf_RelayerInstruction pre ->
      (N.of_nat (length pre) < n)%N ->
      wf_Pubkey p -> (k < 2 ^ 32)%N -> (N.of_nat (length rest) < k)%N ->
      is_err (decode (at_instruction f n pre (at_account p k [] rest)))) /\
  (forall f n pre p accts k rest,
      (n < 2 ^ 32)%N -> Forall wf_RelayerInstruction pre ->
      (N.of_nat (length pre) < n)%N ->
      wf_Pubkey p -> wf_vec wf_RelayerAccount accts ->
      (k < 2 ^ 32)%N -> (N.of_nat (length rest) < k)%N ->
      is_err (decode (at_instruction f n pre (at_data p accts k [] rest)))) /\
  (forall f n pre p accts k dpre m rest,
      (n < 2 ^ 32)%N -> Forall wf_RelayerInstruction pre ->
      (N.of_nat (length pre) < n)%N ->
      wf_Pubkey p -> wf_vec wf_RelayerAccount accts ->
      (k < 2 ^ 32)%N -> Forall wf_RelayerData dpre ->
      (N.of_nat (length dpre) < k)%N ->
      (m < 2 ^ 32)%N -> (N.of_nat (length rest) < m)%N ->
      is_err (decode (at_instruction f n pre
                        (at_data p accts k dpre (x00 :: ser_u32 m ++ rest))))).
Proof.
  repeat apply conj.
  - exact decode_truncated.
  - intros. apply decode_err, de_RelayerTransaction_at_instruction; auto.
    apply de_RelayerInstruction_at_account; auto.
    now apply de_RelayerAccount_bad_tag.
  - intros. apply decode_err, de_RelayerTransaction_at_instruction; auto.
    apply de_RelayerInstruction_at_data; auto.
    now apply de_RelayerData_bad_tag.
  - intros f n rest Hn Hlt. apply decode_err.
    unfold de_RelayerTransaction, at_instruction.
    rewrite (de_ser Laws_bool) by exact I. cbn [bind ser_seq map concat app].
    apply is_err_bind. exists LengthExceedsInput.
    now apply de_vec_count_exceeds.
  - intros f n pre p k rest Hn Hpre Hlt Hp Hk Hrest.
    apply decode_err, de_RelayerTransaction_at_instruction; auto.
    unfold de_RelayerInstruction, at_account.
    rewrite (de_ser Laws_Pubkey) by exact Hp. cbn [bind ser_seq map concat app].
    apply is_err_bind. exists LengthExceedsInput.
    now apply de_vec_count_exceeds.
  - intros f n pre p accts k rest Hn Hpre Hlt Hp Ha Hk Hrest.
    apply decode_err, de_RelayerTransaction_at_instruction; auto.
    unfold de_RelayerInstruction, at_data.
    rewrite (de_ser Laws_Pubkey) by exact Hp. cbn [bind].
    rewrite (de_ser (Laws_vec Laws_RelayerAccount)) by exact Ha.
    cbn [bind ser_seq map concat app].
    apply is_err_bind. exists LengthExceedsInput.
    now apply de_vec_count_exceeds.
  - intros f n pre p accts k dpre m rest Hn Hpre Hlt Hp Ha Hk Hd Hlk Hm Hrest.
    apply decode_err, de_RelayerTransaction_at_instruction; auto.
    apply de_RelayerInstruction_at_data; auto.
    unfold de_RelayerData. cbn [de_u8 bind].
    apply is_err_bind. exists LengthExceedsInput.
    now apply de_vec_count_exceeds.
Qed.

Lemma decode_rejects_malformed_witness :
  let k11 := ItsExample.key x11 in
  is_err (decode (removelast (encode ItsExample.round0))) /\
  is_err (decode (at_instruction false 1 [] (at_account k11 1 [] [x04]))) /\
  is_err (decode (at_instruction false 1 []
                    (at_data k11 [MessagePayload] 1 [] [x02]))) /\
  is_err (decode (at_instruction true 1 [] [])) /\
  is_err (decode (at_instruction true 1 [] (at_account k11 2 [] [x01]))) /\
  is_err (decode (at_instruction true 1 [] (at_data k11 [] 1 [] []))) /\
  is_err (decode (at_instruction true 1 []
                    (at_data k11 [] 1 [] (x00 :: ser_u32 5 ++ [x01])))).
Proof.
  destruct decode_rejects_malformed as (H1 & H2 & H3 & H4 & H5 & H6 & H7).
  repeat apply conj.
  - apply (H1 ItsExample.round0 _ [x01]);
      [wf_by_computation | reflexivity | discriminate].
  - apply H2; solve [wf_by_computation | reflexivity].
  - apply H3; solve [wf_by_computation | reflexivity].
  - apply H4; reflexivity.
  - apply H5; solve [wf_by_computation | reflexivity].
  - apply H6; solve [wf_by_computation | reflexivity].
  - apply H7; solve [wf_by_computation | reflexivity].
Defined.


Lemma decode_instructions (bs : list byte) (t : RelayerTransaction) :
  decode bs = Ok t -> instructions t <> [].
Proof.
  unfold decode. intros H.
  apply bind_ok in H as ([t' r] & _ & H).
  destruct (instructions t') eqn:E; [discriminate |].
  injection H as <-. rewrite E. discriminate.
Qed.

Lemma decode_no_instruction f rest :
  decode (at_instruction f 0 [] rest) = Err NoInstruction.
Proof.
  unfold decode, de_RelayerTransaction, at_instruction.
  rewrite (de_ser Laws_bool) by exact I. cbn [bind].
  change (ser_u32 0 ++ ser_seq ser_RelayerInstruction [] ++ rest)
    with (ser_vec ser_RelayerInstruction [] ++ rest).
  rewrite (de_ser (Laws_vec Laws_RelayerInstruction)); [reflexivity |].
  split; [reflexivity | constructor].
Qed.

(** * The resolution loop *)

Lemma last_cons {A} (l : list A) (x d : A) : last (x :: l) d = last l x.
Proof.
  revert x d. induction l as [| y l IH]; intros x d; [reflexivity |].
  change (last (x :: y :: l) d) with (last (y :: l) d).
  now rewrite (IH y d), (IH y x).
Qed.

Section Loop.

Variable simulate : RelayerTransaction -> option (list byte).

Lemma relayer_loop_not_final fuel t t' round :
  is_final t = false -> next simulate t = Some t' ->
  relayer_loop simulate (S fuel) t round
  = relayer_loop simulate fuel t' (S round).
Proof.
  unfold next. intros Hf Hn. cbn [relayer_loop]. rewrite Hf.
  destruct (simulate t) as [rd |]; [| discriminate].
  destruct (decode rd) as [t'' | e]; [| discriminate].
  now injection Hn as ->.
Qed.

Lemma relayer_loop_linked rest :
  forall t fuel round,
    linked simulate t rest ->
    relayer_loop simulate fuel t round
    = if fuel <=? length rest then None
      else Some (Done (last rest t, round + length rest)).
Proof.
  induction rest as [| t' rest IH]; intros t fuel round Hl.
  - simpl in Hl. destruct fuel as [| fuel]; [reflexivity |].
    cbn [relayer_loop length last]. rewrite Hl.
    replace (S fuel <=? 0) with false by (symmetry; apply Nat.leb_gt; lia).
    now rewrite Nat.add_0_r.
  - destruct Hl as (Hf & Hn & Hl).
    destruct fuel as [| fuel]; [reflexivity |].
    rewrite (@relayer_loop_not_final fuel t t' round Hf Hn), (IH _ _ _ Hl).
    cbn [length]. change (S fuel <=? S (length rest)) with (fuel <=? length rest).
    destruct (fuel <=? length rest); [reflexivity |].
    rewrite last_cons. do 3 f_equal. lia.
Qed.

Lemma relayer_loop_never_final c :
  never_final simulate c ->
  forall fuel i round, relayer_loop simulate fuel (c i) round = None.
Proof.
  intros Hc. induction fuel as [| fuel IH]; intros i round; [reflexivity |].
  destruct (Hc i) as [Hf Hn].
  now rewrite (@relayer_loop_not_final fuel _ _ round Hf Hn).
Qed.

End Loop.

(** C8. Every descriptor that [decode] accepts contains at least one
    instruction: a count of zero after the [is_final] byte is refused, and
    every descriptor the resolution loop obtains from return data has an
    instruction. *)
Theorem decode_at_least_one_instruction :
  (forall bs t,
      decode bs = Ok t ->
      instructions t <> [] /\ 1 <= length (instructions t)) /\
  (forall f rest, decode (at_instruction f 0 [] rest) = Err NoInstruction) /\
  (forall simulate t t',
      next simulate t = Some t' -> instructions t' <> []).
Proof.
  repeat apply conj.
  - intros bs t H. apply decode_instructions in H.
    split; [exact H |]. destruct (instructions t); [now destruct H | simpl; lia].
  - exact decode_no_instruction.
  - intros simulate t t'. unfold next.
    destruct (simulate t) as [rd |]; [| discriminate].
    destruct (decode rd) as [d | e] eqn:Hd; [| discriminate].
    intros [= <-]. exact (decode_instructions _ Hd).
Qed.

Lemma decode_at_least_one_instruction_witness :
  decode (encode ItsExample.round2) = Ok ItsExample.round2 /\
  (instructions ItsExample.round2 <> [] /\
   1 <= length (instructions ItsExample.round2)) /\
  next ItsExample.simulate ItsExample.round0 = Some ItsExample.round1 /\
  instructions ItsExample.round1 <> [].
Proof.
  destruct decode_at_least_one_instruction as (H1 & _ & H3).
  assert (Hd : decode (encode ItsExample.round2) = Ok ItsExample.round2)
    by reflexivity.
  assert (Hn : next ItsExample.simulate ItsExample.round0
               = Some ItsExample.round1) by reflexivity.
  exact (conj Hd (conj (H1 _ _ Hd) (conj Hn (H3 _ _ _ Hn)))).
Defined.

(** C2, as stated, fails: when every simulation returns a descriptor that is
    not final, the relayer does not end after any number of rounds, be it
    with [MaxRoundsExceeded] or with anything else. *)
Lemma relayer_loop_no_round_limit :
  ~ (exists fuel r,
        discover ItsExample.simulate_again fuel
          (Some (encode ItsExample.round0))
        = Some r).
Proof.
  intros (fuel & r & H).
  change (relayer_loop ItsExample.simulate_again fuel
            ((fun _ : nat => ItsExample.round0) 0) 1 = Some r) in H.
  rewrite relayer_loop_never_final in H; [discriminate |].
  intros i. split; reflexivity.
Qed.

(** C2, amended. For every chain of N descriptors that are not final
    followed by one final descriptor, the relayer leaves its loop after
    exactly N simulations (it is still running when cut after N turns or
    fewer), hands the final descriptor to [execute], and has then decoded
    N+1 descriptors.  The loop has no round limit: on a chain in which
    [is_final] is never set it is still running after any number of turns,
    and no failure is reported. *)
Theorem relayer_loop_rounds :
  forall simulate account_data t,
    decode account_data = Ok t ->
    (forall rest fuel,
        linked simulate t rest ->
        discover simulate fuel (Some account_data)
        = if fuel <=? length rest then None
          else Some (Done (last rest t, length rest + 1))) /\
    (forall c fuel,
        c 0 = t -> never_final simulate c ->
        discover simulate fuel (Some account_data) = None).
Proof.
  intros simulate account_data t Hdec. unfold discover. rewrite Hdec. split.
  - intros rest fuel Hl.
    rewrite (@relayer_loop_linked simulate rest t fuel 1 Hl).
    destruct (fuel <=? length rest); [reflexivity |].
    do 3 f_equal. lia.
  - intros c fuel <- Hc. now apply relayer_loop_never_final.
Qed.

Lemma relayer_loop_rounds_witness :
  decode (encode ItsExample.round0) = Ok ItsExample.round0 /\
  linked ItsExample.simulate ItsExample.round0
    [ItsExample.round1; ItsExample.round2] /\
  discover ItsExample.simulate 2 (Some (encode ItsExample.round0)) = None /\
  discover ItsExample.simulate 3 (Some (encode ItsExample.round0))
  = Some (Done (ItsExample.round2, 3)) /\
  never_final ItsExample.simulate_again (fun _ => ItsExample.round0) /\
  discover ItsExample.simulate_again 100 (Some (encode ItsExample.round0))
  = None.
Proof.
  assert (Hd : decode (encode ItsExample.round0) = Ok ItsExample.round0)
    by reflexivity.
  assert (Hl : linked ItsExample.simulate ItsExample.round0
                 [ItsExample.round1; ItsExample.round2])
    by (repeat split; reflexivity).
  assert (Hc : never_final ItsExample.simulate_again
                 (fun _ => ItsExample.round0))
    by (intros i; split; reflexivity).
  refine (conj Hd (conj Hl (conj _ (conj _ (conj Hc _))))).
  - exact (proj1 (relayer_loop_rounds ItsExample.simulate _ Hd) _ 2 Hl).
  - exact (proj1 (relayer_loop_rounds ItsExample.simulate _ Hd) _ 3 Hl).
  - exact (proj2 (relayer_loop_rounds ItsExample.simulate_again _ Hd)
             (fun _ => ItsExample.round0) 100 eq_refl Hc).
Defined.

(** * Conversion into regular instructions *)

Lemma resolve_requested ctx a requested :
  snd (resolve ctx a requested) = (requested + lamports_of a)%N.
Proof. destruct a; simpl; lia. Qed.

Lemma resolve_meta ctx a requested :
  fst (resolve ctx a requested) = fst (resolve ctx a 0%N).
Proof. now destruct a. Qed.

Lemma resolve_all_spec ctx l :
  forall requested,
    resolve_all ctx l requested
    = (map (fun a => fst (resolve ctx a 0%N)) l,
       (requested + sum_N (map lamports_of l))%N).
Proof.
  induction l as [| a l IH]; intros requested; simpl.
  - f_equal. lia.
  - destruct (resolve ctx a requested) as [m r1] eqn:E.
    rewrite IH.
    pose proof (resolve_requested ctx a requested) as Hr.
    pose proof (resolve_meta ctx a requested) as Hm.
    rewrite E in Hr, Hm. simpl in Hr, Hm. subst. f_equal. lia.
Qed.

Lemma convert_data_spec msg ds bytes :
  convert_data msg ds = Some bytes ->
  exists chunks,
    Forall2 (fun d b => convert_chunk msg d = Some b) ds chunks /\
    bytes = concat chunks.
Proof.
  revert bytes. induction ds as [| d ds IH]; intros bytes; simpl.
  - intros [= <-]. exists []. split; [constructor | reflexivity].
  - destruct (convert_chunk msg d) as [b |] eqn:Ed; [| discriminate].
    destruct (convert_data msg ds) as [bs |]; [| discriminate].
    intros [= <-]. destruct (IH bs eq_refl) as (chunks & Hall & ->).
    exists (b :: chunks). split; [now constructor | reflexivity].
Qed.

Lemma convert_data_app msg ds1 ds2 :
  convert_data msg (ds1 ++ ds2)
  = match convert_data msg ds1, convert_data msg ds2 with
    | Some b1, Some b2 => Some (b1 ++ b2)
    | _, _ => None
    end.
Proof.
  induction ds1 as [| d ds1 IH]; simpl.
  - now destruct (convert_data msg ds2).
  - rewrite IH.
    destruct (convert_chunk msg d) as [b |]; [| reflexivity].
    destruct (convert_data msg ds1) as [b1 |]; [| reflexivity].
    destruct (convert_data msg ds2) as [b2 |]; [| reflexivity].
    now rewrite app_assoc.
Qed.

Lemma to_instruction_spec ctx i requested ix requested' :
  to_instruction ctx i requested = Some (ix, requested') ->
  ix_program_id ix = program i /\
  ix_accounts ix = map (fun a => fst (resolve ctx a 0%N)) (accounts i) /\
  convert_data (message ctx) (data i) = Some (ix_data ix) /\
  requested' = (requested + sum_N (map lamports_of (accounts i)))%N.
Proof.
  unfold to_instruction. rewrite resolve_all_spec.
  destruct (convert_data (message ctx) (data i)) as [bytes |]; [| discriminate].
  intros [= <- <-]. now repeat split.
Qed.

Lemma sum_N_app l1 l2 : sum_N (l1 ++ l2) = (sum_N l1 + sum_N l2)%N.
Proof.
  unfold sum_N. induction l1 as [| x l1 IH]; simpl; [reflexivity |].
  rewrite IH. lia.
Qed.

Lemma to_instructions_requested ctx l :
  forall requested ixs requested',
    to_instructions ctx l requested = Some (ixs, requested') ->
    requested'
    = (requested + sum_N (map lamports_of (flat_map accounts l)))%N.
Proof.
  induction l as [| i l IH]; intros requested ixs requested'; simpl.
  - intros [= <- <-]. simpl. lia.
  - destruct (to_instruction ctx i requested) as [[ix r1] |] eqn:Ei;
      [| discriminate].
    destruct (to_instructions ctx l r1) as [[ixs' r2] |] eqn:El;
      [| discriminate].
    intros [= <- <-].
    apply to_instruction_spec in Ei as (_ & _ & _ & ->).
    apply IH in El as ->.
    rewrite map_app, sum_N_app. lia.
Qed.

Lemma to_transaction_requested ctx t ixs requested :
  to_transaction ctx t = Some (ixs, requested) ->
  requested = total_requested t.
Proof.
  unfold to_transaction. intros H.
  apply to_instructions_requested in H as ->. unfold total_requested. lia.
Qed.

(** C6. Resolving [Payer(amount)] returns the payer of the context as a
    signer and writable and adds [amount] to the accumulator of the attempt;
    over the instructions of a descriptor the amounts of all the [Payer]
    entries add up to the one requirement the conversion returns. *)
Theorem resolve_payer :
  (forall ctx amount requested,
      resolve ctx (Payer amount) requested
      = ({| pubkey := payer ctx; is_signer := true; is_writable := true |},
         (requested + amount)%N)) /\
  (forall ctx t ixs requested,
      to_transaction ctx t = Some (ixs, requested) ->
      requested = total_requested t).
Proof.
  split; [reflexivity |].
  intros ctx t ixs requested H. exact (to_transaction_requested _ _ H).
Qed.

Lemma resolve_payer_witness :
  exists ixs,
    to_transaction ItsExample.sample_context ItsExample.funded_thrice
    = Some (ixs, 1235%N) /\
    1235%N = total_requested ItsExample.funded_thrice.
Proof.
  destruct (to_transaction ItsExample.sample_context ItsExample.funded_thrice)
    as [[ixs r] |] eqn:E; [| discriminate E].
  assert (Hr : r = 1235%N) by (vm_compute in E; now injection E).
  subst r. exists ixs. split; [reflexivity |].
  exact (proj2 resolve_payer _ _ _ _ E).
Defined.

(** C4, as stated, fails in its last part: these two instructions differ
    only in the order of their two chunks, and convert to the same regular
    instruction. *)
Lemma reordered_chunks_same_data :
  let i1 := {| program := ItsExample.key x11; accounts := [];
               data := [Bytes [x01]; Bytes [x01; x01]] |} in
  let i2 := {| program := ItsExample.key x11; accounts := [];
               data := [Bytes [x01; x01]; Bytes [x01]] |} in
  data i1 <> data i2 /\
  to_instruction ItsExample.sample_context i1 0
  = to_instruction ItsExample.sample_context i2 0 /\
  to_instruction ItsExample.sample_context i1 0 <> None.
Proof.
  repeat split; discriminate.
Qed.

(** C4, amended. Conversion keeps the order: the n-th account of the regular
    instruction is the resolution of the n-th entry of [accounts], and the
    data is the concatenation, in order, of the bytes of each chunk ([Bytes]
    its raw bytes, [Message] the serialized message).  Exchanging two
    neighbouring chunks changes the data exactly when their bytes do not
    commute under concatenation. *)
Theorem to_instruction_order :
  (forall ctx i requested ix requested',
      to_instruction ctx i requested = Some (ix, requested') ->
      length (ix_accounts ix) = length (accounts i) /\
      (forall n,
          nth_error (ix_accounts ix) n
          = option_map (fun a => fst (resolve ctx a requested))
              (nth_error (accounts i) n)) /\
      exists chunks,
        Forall2 (fun d b => convert_chunk (message ctx) d = Some b)
          (data i) chunks /\
        ix_data ix = concat chunks) /\
  (forall ctx p accts pre a b post requested ix ix' r r' bytes_a bytes_b,
      to_instruction ctx
        {| program := p; accounts := accts; data := pre ++ a :: b :: post |}
        requested = Some (ix, r) ->
      to_instruction ctx
        {| program := p; accounts := accts; data := pre ++ b :: a :: post |}
        requested = Some (ix', r') ->
      convert_chunk (message ctx) a = Some bytes_a ->
      convert_chunk (message ctx) b = Some bytes_b ->
      (ix_data ix = ix_data ix' <-> bytes_a ++ bytes_b = bytes_b ++ bytes_a)).
Proof.
  split.
  - intros ctx i requested ix requested' H.
    apply to_instruction_spec in H as (_ & Ha & Hd & _).
    rewrite Ha. split; [apply length_map |]. split.
    + intros n. rewrite nth_error_map.
      destruct (nth_error (accounts i) n) as [a |]; [| reflexivity].
      simpl. now rewrite (resolve_meta ctx a requested).
    + apply convert_data_spec in Hd as (chunks & Hall & ->).
      now exists chunks.
  - intros ctx p accts pre a b post requested ix ix' r r' ba bb H H' Ea Eb.
    apply to_instruction_spec in H as (_ & _ & Hd & _).
    apply to_instruction_spec in H' as (_ & _ & Hd' & _).
    cbn [data] in Hd, Hd'.
    rewrite convert_data_app in Hd, Hd'. cbn [convert_data] in Hd, Hd'.
    rewrite Ea, Eb in Hd, Hd'.
    destruct (convert_data (message ctx) pre) as [bpre |]; [| discriminate].
    destruct (convert_data (message ctx) post) as [bpost |]; [| discriminate].
    injection Hd as <-. injection Hd' as <-.
    rewrite !app_assoc. split.
    + intros H. apply app_inv_tail in H.
      rewrite <- !app_assoc in H. now apply app_inv_head in H.
    + intros H. f_equal. rewrite <- !app_assoc. now f_equal.
Qed.

Lemma to_instruction_order_witness :
  let ctx := ItsExample.sample_context in
  let i := {| program := ItsExample.key x11;
              accounts := [Payer 1000; IncomingMessage; MessagePayload;
                           Account (ItsExample.new (ItsExample.key x3b) false)];
              data := [Bytes [x09]; Message] |} in
  let i' := {| program := ItsExample.key x11;
               accounts := accounts i;
               data := [Message; Bytes [x09]] |} in
  exists ix ix',
    to_instruction ctx i 0 = Some (ix, 1000%N) /\
    to_instruction ctx i' 0 = Some (ix', 1000%N) /\
    nth_error (ix_accounts ix) 3
    = Some (ItsExample.new (ItsExample.key x3b) false) /\
    ix_data ix = x09 :: ser_Message ItsExample.sample_message /\
    (ix_data ix = ix_data ix' <->
     [x09] ++ ser_Message ItsExample.sample_message
     = ser_Message ItsExample.sample_message ++ [x09]).
Proof.
  intros ctx i i'.
  destruct (to_instruction ctx i 0) as [[ix r] |] eqn:E; [| discriminate E].
  destruct (to_instruction ctx i' 0) as [[ix' r'] |] eqn:E'; [| discriminate E'].
  exists ix, ix'.
  destruct (proj1 to_instruction_order ctx i 0%N ix r E) as (_ & Hn & _).
  pose proof (proj2 to_instruction_order ctx (ItsExample.key x11) (accounts i)
                [] (Bytes [x09]) Message [] 0%N ix ix' r r'
                [x09] (ser_Message ItsExample.sample_message)
                E E' eq_refl eq_refl) as Hswap.
  assert (Hr : r = 1000%N) by (vm_compute in E; now injection E).
  assert (Hr' : r' = 1000%N) by (vm_compute in E'; now injection E').
  assert (Hd : ix_data ix = x09 :: ser_Message ItsExample.sample_message)
    by (vm_compute in E; injection E as <- _; reflexivity).
  subst r r'.
  refine (conj eq_refl (conj eq_refl (conj _ (conj Hd Hswap)))).
  rewrite (Hn 3). reflexivity.
Defined.

(** * Funding the payer *)

(** C3, as stated, fails: with 1000 lamports requested, a gas of 1000 that is
    not exceeded, and 5 needed for the execution, the gas does not cover both
    and the payer is not funded. *)
Lemma fund_payer_needs_execution_cost :
  total_requested ItsExample.round2 = 1000%N /\
  (Z.of_N (total_requested ItsExample.round2) <= 1000)%Z /\
  fund_payer 1000 5 (Z.of_N (total_requested ItsExample.round2)) 0
  = Failed FundingMismatch /\
  fund_and_execute ItsExample.sample_context 1000 5 0 ItsExample.round2
  = Failed FundingMismatch.
Proof.
  repeat split; vm_compute; congruence.
Qed.

Lemma execute_spec t balance :
  let total := Z.of_N (total_requested t) in
  ((total <= balance)%Z -> execute t balance = Done (balance - total)%Z) /\
  ((balance < total)%Z -> execute t balance = Failed ExecutionFailure).
Proof.
  unfold execute. cbn zeta.
  destruct (Z.leb_spec (Z.of_N (total_requested t)) balance);
    split; intros; first [reflexivity | lia].
Qed.

(** C3, amended. Let a final descriptor's [Payer] amounts sum to
    [total_requested].  If the gas does not cover [total_requested] together
    with what the execution needs, the attempt fails with [FundingMismatch]
    and nothing is transferred.  Otherwise exactly
    [shortfall = total_requested - current_payer_balance] is transferred to
    the payer before execution, so that the execution succeeds and the
    payer's balance has then decreased by exactly [total_requested], no more,
    no less: the payer held [total_requested] and is left with nothing.  A
    smaller transfer makes the execution fail, and a larger one leaves the
    surplus in the payer's account. *)
Theorem fund_payer_exact :
  forall ctx gas execution_cost balance t ixs requested,
    to_transaction ctx t = Some (ixs, requested) ->
    let total := Z.of_N (total_requested t) in
    let shortfall := (total - balance)%Z in
    ((gas < total + execution_cost)%Z ->
     fund_payer gas execution_cost total balance = Failed FundingMismatch /\
     fund_and_execute ctx gas execution_cost balance t
     = Failed FundingMismatch) /\
    ((total + execution_cost <= gas)%Z ->
     fund_payer gas execution_cost total balance = Done shortfall /\
     (balance + shortfall = total)%Z /\
     fund_and_execute ctx gas execution_cost balance t = Done 0%Z /\
     (forall transfer,
         (transfer < shortfall)%Z ->
         execute t (balance + transfer) = Failed ExecutionFailure) /\
     (forall transfer after,
         execute t (balance + transfer) = Done after ->
         ((balance + transfer) - after = total)%Z /\
         (after = 0%Z <-> transfer = shortfall))).
Proof.
  intros ctx gas execution_cost balance t ixs requested H total shortfall.
  pose proof (to_transaction_requested _ _ H) as Hreq.
  unfold fund_and_execute, fund_payer. rewrite H, Hreq. fold total.
  assert (Hfunded : (balance + shortfall = total)%Z)
    by (unfold shortfall; lia).
  pose proof (fun b => execute_spec t b) as Hex. cbn zeta in Hex. fold total in Hex.
  split.
  - intros Hlt.
    destruct (Z.leb_spec (total + execution_cost) gas); [lia |]. now split.
  - intros Hle.
    destruct (Z.leb_spec (total + execution_cost) gas); [| lia].
    split; [reflexivity |]. split; [exact Hfunded |]. split; [| split].
    + fold shortfall. rewrite Hfunded.
      rewrite (proj1 (Hex total)) by lia. f_equal. lia.
    + intros transfer Hlt. apply (proj2 (Hex (balance + transfer)%Z)).
      unfold shortfall in Hlt. lia.
    + intros transfer after Hdone.
      destruct (Z.le_gt_cases total (balance + transfer)) as [Hge | Hlt].
      * rewrite (proj1 (Hex (balance + transfer)%Z) Hge) in Hdone.
        injection Hdone as <-. unfold shortfall. split; [lia |]. split; lia.
      * rewrite (proj2 (Hex (balance + transfer)%Z) Hlt) in Hdone.
        discriminate.
Qed.

Lemma fund_payer_exact_witness :
  let ctx := ItsExample.sample_context in
  let t := ItsExample.round2 in
  exists ixs,
    to_transaction ctx t = Some (ixs, 1000%N) /\
    fund_payer 1004 5 1000 300 = Failed FundingMismatch /\
    fund_payer 1005 5 1000 300 = Done 700%Z /\
    fund_and_execute ctx 1005 5 300 t = Done 0%Z /\
    execute t (300 + 699) = Failed ExecutionFailure /\
    ((300 + 750) - 50 = 1000)%Z.
Proof.
  intros ctx t.
  destruct (to_transaction ctx t) as [[ixs r] |] eqn:E; [| discriminate E].
  assert (Hr : r = 1000%N) by (vm_compute in E; now injection E).
  exists ixs.
  destruct (fund_payer_exact ctx 1004 5 300 t E) as [Hfail _].
  destruct (fund_payer_exact ctx 1005 5 300 t E) as [_ Hok].
  assert (Ht : Z.of_N (total_requested t) = 1000%Z) by reflexivity.
  cbn zeta in Hfail, Hok. rewrite Ht in Hfail, Hok.
  destruct (Hfail ltac:(lia)) as [Hf1 _].
  destruct (Hok ltac:(lia)) as (Hd & _ & Hall & Hless & Hmore).
  subst r.
  refine (conj eq_refl (conj Hf1 (conj Hd (conj Hall (conj _ _))))).
  - apply Hless. lia.
  - exact (proj1 (Hmore 750%Z 50%Z eq_refl)).
Defined.

(** * The address of the descriptor *)

(** C5. The [transaction_pda] of a program is derived from the program id
    and one seed only, the constant
    keccak256('relayer-discovery-transaction') =
    0xa57128349132c58c5700674195df81ef5ee89bc36f0e9676bae7e1479b7fcede;
    nothing else enters the derivation, so equal program ids give equal
    addresses. *)
Theorem transaction_pda_single_seed :
  TRANSACTION_PDA_SEED
  = Keccak.keccak256 (list_byte_of_string "relayer-discovery-transaction") /\
  of_le (rev TRANSACTION_PDA_SEED)
  = 0xa57128349132c58c5700674195df81ef5ee89bc36f0e9676bae7e1479b7fcede%N /\
  length TRANSACTION_PDA_SEED = 32 /\
  (forall find_program_address program_id,
      transaction_pda find_program_address program_id
      = find_program_address [TRANSACTION_PDA_SEED] program_id) /\
  (forall find_program_address program_id program_id',
      program_id = program_id' ->
      transaction_pda find_program_address program_id
      = transaction_pda find_program_address program_id').
Proof.
  split; [vm_compute; reflexivity |].
  split; [vm_compute; reflexivity |].
  split; [reflexivity |].
  split; [reflexivity |].
  now intros f p p' ->.
Qed.

Lemma transaction_pda_single_seed_witness :
  let find := fun (seeds : list (list byte)) (program_id : Pubkey) =>
                (concat seeds ++ program_id, xff) in
  transaction_pda find (ItsExample.key x11)
  = transaction_pda find (repeat x11 32).
Proof.
  intros find.
  exact (proj2 (proj2 (proj2 (proj2 transaction_pda_single_seed)))
           find (ItsExample.key x11) (repeat x11 32) eq_refl).
Defined.

(** * The generated gateway bindings *)

(** C9. For every log, [AxelarSolanaGatewayEventsCoder.decode] returns
    nothing, not even null: it throws the error "AxelarSolanaGateway program
    does not have events". *)
Theorem events_decode_throws :
  forall (Event : Type) (log : string),
    Gateway.decode Event log
    = Gateway.Throw
        {| Gateway.error_message :=
             "AxelarSolanaGateway program does not have events" |} /\
    (forall r, Gateway.decode Event log <> Gateway.Return r).
Proof.
  intros Event log. split; [reflexivity | discriminate].
Qed.

(** C10. [axelarSolanaGatewayProgram] builds the program with the fixed id
    "gtwLjHAsfKAR6GWB4hzTUAA1w4SDdFMKamtGA5ttMEe" when [params] is absent or
    has no [programId], and with the supplied id when there is one. *)
Theorem axelarSolanaGatewayProgram_programId :
  forall (AnchorProvider : Type),
    Gateway.base58 Gateway.AXELAR_SOLANA_GATEWAY_PROGRAM_ID
    = "gtwLjHAsfKAR6GWB4hzTUAA1w4SDdFMKamtGA5ttMEe"%string /\
    Gateway.program_programId
      (Gateway.axelarSolanaGatewayProgram (AnchorProvider := AnchorProvider) None)
    = Gateway.AXELAR_SOLANA_GATEWAY_PROGRAM_ID /\
    (forall provider : option AnchorProvider,
        Gateway.program_programId
          (Gateway.axelarSolanaGatewayProgram
             (Some {| Gateway.programId := None;
                      Gateway.provider := provider |}))
        = Gateway.AXELAR_SOLANA_GATEWAY_PROGRAM_ID) /\
    (forall (provider : option AnchorProvider) id,
        Gateway.program_programId
          (Gateway.axelarSolanaGatewayProgram
             (Some {| Gateway.programId := Some id;
                      Gateway.provider := provider |}))
        = id).
Proof.
  intros AnchorProvider. repeat split.
Qed.

(** * Further properties of the relayer loop *)

Import DiscoveryMore.

Section LoopMore.

Variable simulate : RelayerTransaction -> option (list byte).


Lemma relayer_loop_unfinished rest :
  forall t fuel round,
    unfinished simulate t rest ->
    length rest < fuel ->
    relayer_loop simulate fuel t round
    = relayer_loop simulate (fuel - length rest) (last rest t)
        (round + length rest).
Proof.
  induction rest as [| t' rest IH]; intros t fuel round Hu Hlt.
  - cbn [length last]. now rewrite Nat.sub_0_r, Nat.add_0_r.
  - destruct Hu as (Hf & Hn & Hu).
    destruct fuel as [| fuel]; [simpl in Hlt; lia |].
    rewrite (@relayer_loop_not_final simulate fuel t t' round Hf Hn).
    cbn [length] in *. rewrite (IH t' fuel (S round) Hu) by lia.
    rewrite last_cons. f_equal. lia.
Qed.

Lemma unfinished_last rest :
  forall t, unfinished simulate t rest -> is_final (last rest t) = false.
Proof.
  induction rest as [| t' rest IH]; intros t Hu; [exact Hu |].
  destruct Hu as (_ & _ & Hu). rewrite last_cons. now apply IH.
Qed.

End LoopMore.



(** X3. When, after N descriptors that are not final, the simulation of the
    next one fails or returns data that does not decode, the loop stops with
    that failure after N+1 turns and nothing is executed. *)
Theorem relayer_loop_failure :
  forall simulate t rest fuel round,
    unfinished simulate t rest ->
    length rest < fuel ->
    (simulate (last rest t) = None ->
     relayer_loop simulate fuel t round = Some (Failed SimulationFailure)) /\
    (forall return_data e,
        simulate (last rest t) = Some return_data ->
        decode return_data = Err e ->
        relayer_loop simulate fuel t round = Some (Failed (DecodeFailure e))).
Proof.
  intros simulate t rest fuel round Hu Hlt.
  erewrite relayer_loop_unfinished by eassumption.
  pose proof (@unfinished_last simulate rest t Hu) as Hf.
  destruct (fuel - length rest) as [| k] eqn:Ek; [lia |].
  cbn [relayer_loop]. rewrite Hf. split.
  - now intros ->.
  - intros rd e -> Hd. now rewrite Hd.
Qed.

Lemma relayer_loop_failure_witness :
  let stops := fun bytes t =>
                 match ItsExample.selector t with
                 | Some b => if Byte.eqb b ItsExample.BUILD_1
                             then Some (encode ItsExample.round1)
                             else bytes
                 | None => bytes
                 end in
  relayer_loop (stops None) 2 ItsExample.round0 1
  = Some (Failed SimulationFailure) /\
  relayer_loop (stops (Some [x07])) 2 ItsExample.round0 1
  = Some (Failed (DecodeFailure InvalidBool)).
Proof.
  intros stops.
  assert (Hu : forall bytes,
             unfinished (stops bytes) ItsExample.round0 [ItsExample.round1])
    by (intros bytes; repeat split; reflexivity).
  assert (Hlt : length [ItsExample.round1] < 2) by repeat constructor.
  split.
  - exact (proj1 (relayer_loop_failure (stops None) _ _ 1 (Hu None) Hlt)
             eq_refl).
  - exact (proj2 (relayer_loop_failure (stops (Some [x07])) _ _ 1
                    (Hu (Some [x07])) Hlt)
             [x07] InvalidBool eq_refl eq_refl).
Defined.

(** * Further properties of the conversion *)

Lemma to_instructions_spec ctx l :
  forall requested ixs requested',
    to_instructions ctx l requested = Some (ixs, requested') ->
    Forall2 (fun i ix =>
               ix_program_id ix = program i /\
               ix_accounts ix
               = map (fun a => fst (resolve ctx a 0%N)) (accounts i) /\
               convert_data (message ctx) (data i) = Some (ix_data ix))
      l ixs.
Proof.
  induction l as [| i l IH]; intros requested ixs requested'; simpl.
  - intros [= <- <-]. constructor.
  - destruct (to_instruction ctx i requested) as [[ix r1] |] eqn:Ei;
      [| discriminate].
    destruct (to_instructions ctx l r1) as [[ixs' r2] |] eqn:El;
      [| discriminate].
    intros [= <- <-].
    apply to_instruction_spec in Ei as (Hp & Ha & Hd & _).
    constructor; [auto | eapply IH; eassumption].
Qed.

Lemma convert_data_none msg ds :
  convert_data msg ds = None <-> msg = None /\ In Message ds.
Proof.
  induction ds as [| d ds IH]; simpl.
  - split; [discriminate | now intros [_ []]].
  - destruct d as [b |]; simpl.
    + destruct (convert_data msg ds) as [bs |].
      * split; [discriminate |].
        intros [Hm [Hd | Hin]]; [discriminate |].
        discriminate (proj2 IH (conj Hm Hin)).
      * split; [| reflexivity].
        intros _. destruct (proj1 IH eq_refl) as [Hm Hin]. auto.
    + destruct msg as [m |]; simpl.
      * destruct (convert_data (Some m) ds) as [bs |].
        -- split; [discriminate | now intros [? _]].
        -- split; [| reflexivity].
           intros _. now destruct (proj1 IH eq_refl).
      * split; [auto | reflexivity].
Qed.

Lemma to_instruction_none ctx i requested :
  to_instruction ctx i requested = None
  <-> message ctx = None /\ In Message (data i).
Proof.
  unfold to_instruction. rewrite resolve_all_spec.
  rewrite <- convert_data_none.
  destruct (convert_data (message ctx) (data i)); split;
    first [discriminate | reflexivity].
Qed.

Lemma to_instructions_none ctx l :
  forall requested,
    to_instructions ctx l requested = None
    <-> message ctx = None /\ exists i, In i l /\ In Message (data i).
Proof.
  induction l as [| i l IH]; intros requested; simpl.
  - split; [discriminate | now intros [_ (? & [] & _)]].
  - destruct (to_instruction ctx i requested) as [[ix r1] |] eqn:Ei.
    + assert (Hi : ~ (message ctx = None /\ In Message (data i))).
      { intros H. apply (to_instruction_none ctx i requested) in H.
        congruence. }
      destruct (to_instructions ctx l r1) as [[ixs r2] |] eqn:El.
      * split; [discriminate |].
        intros [Hm (j & [<- | Hj] & Hin)]; [now destruct Hi |].
        assert (Hn : to_instructions ctx l r1 = None)
          by (apply IH; eauto).
        congruence.
      * split; [| reflexivity]. intros _.
        apply IH in El as [Hm (j & Hj & Hin)]. eauto.
    + split; [| reflexivity]. intros _.
      apply to_instruction_none in Ei as [Hm Hin]. eauto.
Qed.

(** X4. The regular transaction of a [RelayerTransaction] has one
    instruction for each [RelayerInstruction], in the same order: the same
    program, the resolutions of its account entries in order, and its data
    chunks converted and concatenated. *)
Theorem to_transaction_instructions :
  forall ctx t ixs requested,
    to_transaction ctx t = Some (ixs, requested) ->
    length ixs = length (instructions t) /\
    map ix_program_id ixs = map program (instructions t) /\
    Forall2 (fun i ix =>
               ix_accounts ix
               = map (fun a => fst (resolve ctx a 0%N)) (accounts i) /\
               convert_data (message ctx) (data i) = Some (ix_data ix))
      (instructions t) ixs.
Proof.
  intros ctx t ixs requested H. unfold to_transaction in H.
  apply to_instructions_spec in H.
  induction H as [| i ix l ixs' (Hp & Ha & Hd) _ (IHl & IHp & IHf)].
  - repeat split; constructor.
  - simpl. rewrite IHl, IHp, Hp. repeat split; auto.
Qed.

Lemma to_transaction_instructions_witness :
  exists ixs,
    to_transaction ItsExample.sample_context ItsExample.funded_thrice
    = Some (ixs, 1235%N) /\
    length ixs = 2 /\
    map ix_program_id ixs = [ItsExample.key x11; ItsExample.key x12].
Proof.
  destruct (to_transaction ItsExample.sample_context ItsExample.funded_thrice)
    as [[ixs r] |] eqn:E; [| discriminate E].
  assert (Hr : r = 1235%N) by (vm_compute in E; now injection E).
  subst r. exists ixs.
  destruct (to_transaction_instructions _ _ E) as (Hl & Hp & _).
  exact (conj eq_refl (conj Hl Hp)).
Defined.

(** X5. The conversion of a [RelayerTransaction] fails exactly when no
    message is at hand and one of its instructions has a [Message] chunk; in
    particular a transaction whose data is made of [Bytes] only converts
    without a message. *)
Theorem to_transaction_fails_iff :
  forall ctx t,
    to_transaction ctx t = None
    <-> message ctx = None /\
        exists i, In i (instructions t) /\ In Message (data i).
Proof.
  intros ctx t. apply to_instructions_none.
Qed.

Lemma to_transaction_fails_iff_witness :
  let ctx := {| payer := ItsExample.key xaa;
                incoming_message_pda := ItsExample.new (ItsExample.key xbb) false;
                message_payload_pda :=
                  ItsExample.new_readonly (ItsExample.key xcc) false;
                message := None |} in
  to_transaction ctx ItsExample.round1 = None /\
  to_transaction ctx ItsExample.round0 <> None.
Proof.
  intros ctx. split.
  - apply to_transaction_fails_iff. split; [reflexivity |].
    eexists. split; [left; reflexivity | right; left; reflexivity].
  - intros H. apply to_transaction_fails_iff in H as [_ (i & Hi & Hin)].
    destruct Hi as [<- | []].
    destruct Hin as [Hin | []]. discriminate Hin.
Defined.

(** * Further properties of the wire codec *)

(** X6. No two well-formed descriptors share an encoding, and an encoding
    followed by other bytes is never an encoding followed by other bytes in
    a second way: from [encode x ++ r = encode y ++ r'] follow [x = y] and
    [r = r']. *)
Theorem encode_unambiguous :
  forall x y r r',
    wf_RelayerTransaction x -> wf_RelayerTransaction y ->
    encode x ++ r = encode y ++ r' ->
    x = y /\ r = r'.
Proof.
  intros x y r r' Hx Hy H.
  pose proof (de_ser Laws_RelayerTransaction x r Hx) as H1.
  pose proof (de_ser Laws_RelayerTransaction y r' Hy) as H2.
  unfold encode in H. rewrite H, H2 in H1.
  now injection H1 as -> ->.
Qed.

Lemma encode_unambiguous_witness :
  wf_RelayerTransaction ItsExample.round1 /\
  encode ItsExample.round1 ++ [x07] = encode ItsExample.round1 ++ [x07] /\
  (ItsExample.round1 = ItsExample.round1 /\ [x07] = [x07]).
Proof.
  assert (Hw : wf_RelayerTransaction ItsExample.round1) by wf_by_computation.
  refine (conj Hw (conj eq_refl _)).
  exact (@encode_unambiguous ItsExample.round1 ItsExample.round1
           [x07] [x07] Hw Hw eq_refl).
Defined.

Lemma length_ser_seq_sum {A} (ser : A -> list byte) (size : A -> nat) xs :
  Forall (fun x => length (ser x) = size x) xs ->
  length (ser_seq ser xs) = list_sum (map size xs).
Proof.
  unfold ser_seq. induction 1 as [| x xs Hx _ IH]; simpl; [reflexivity |].
  now rewrite length_app, Hx, IH.
Qed.

Lemma length_ser_RelayerAccount a :
  wf_RelayerAccount a ->
  length (ser_RelayerAccount a) = size_RelayerAccount a.
Proof.
  destruct a as [m | | | l]; simpl; try reflexivity.
  - intros Hm. unfold ser_AccountMeta, ser_Pubkey.
    rewrite !length_app. red in Hm. red in Hm. rewrite Hm. reflexivity.
Qed.

Lemma length_ser_bytes (b : list byte) : length (ser_seq ser_u8 b) = length b.
Proof.
  unfold ser_seq, ser_u8. induction b as [| x b IH]; simpl; [reflexivity |].
  now rewrite IH.
Qed.

Lemma length_ser_RelayerData d :
  length (ser_RelayerData d) = size_RelayerData d.
Proof.
  destruct d as [b |]; [| reflexivity].
  cbn [ser_RelayerData size_RelayerData length].
  unfold ser_vec, ser_u32.
  now rewrite length_app, length_to_le, length_ser_bytes.
Qed.

Lemma length_ser_vec {A} (ser : A -> list byte) (size : A -> nat) xs :
  Forall (fun x => length (ser x) = size x) xs ->
  length (ser_vec ser xs) = 4 + list_sum (map size xs).
Proof.
  intros H. unfold ser_vec, ser_u32.
  now rewrite length_app, length_to_le, (@length_ser_seq_sum _ ser size xs H).
Qed.

Lemma length_ser_RelayerInstruction i :
  wf_RelayerInstruction i ->
  length (ser_RelayerInstruction i) = size_RelayerInstruction i.
Proof.
  intros (Hp & [_ Ha] & _). unfold ser_RelayerInstruction, ser_Pubkey.
  rewrite !length_app, Hp.
  rewrite (@length_ser_vec _ ser_RelayerAccount size_RelayerAccount),
          (@length_ser_vec _ ser_RelayerData size_RelayerData).
  - unfold size_RelayerInstruction. lia.
  - apply Forall_forall. intros d _. apply length_ser_RelayerData.
  - eapply Forall_impl; [| exact Ha].
    intros a. apply length_ser_RelayerAccount.
Qed.

(** X7. The encoding of a well-formed descriptor takes 5 bytes plus, for
    each instruction, 40 bytes, 35 for each hard-coded account, 1 for each
    [IncomingMessage] or [MessagePayload], 9 for each [Payer], 5 plus its
    length for each [Bytes] chunk and 1 for each [Message]. *)
Theorem encode_length :
  forall t,
    wf_RelayerTransaction t ->
    length (encode t) = size_RelayerTransaction t.
Proof.
  intros t [_ Hi]. unfold encode, ser_RelayerTransaction.
  rewrite length_app.
  rewrite (@length_ser_vec _ ser_RelayerInstruction size_RelayerInstruction).
  - reflexivity.
  - eapply Forall_impl; [| exact Hi].
    intros i. apply length_ser_RelayerInstruction.
Qed.

Lemma encode_length_witness :
  wf_RelayerTransaction ItsExample.round2 /\
  length (encode ItsExample.round2) = 518.
Proof.
  assert (Hw : wf_RelayerTransaction ItsExample.round2) by wf_by_computation.
  split; [exact Hw |].
  exact (encode_length Hw).
Defined.

(** * The message behind the selector *)

Lemma Laws_string :
  Laws (wf_vec (fun _ : byte => True)) (ser_vec ser_u8) (de_vec de_u8).
Proof. exact (Laws_vec Laws_u8). Qed.

Lemma de_Message_ser m rest :
  wf_Message m -> de_Message (ser_Message m ++ rest) = Ok (m, rest).
Proof.
  destruct m as [[c i] s dc da h].
  unfold wf_Message, ser_Message, de_Message.
  cbn [cc_id chain id source_address destination_chain destination_address
       payload_hash].
  intros (Hc & Hi & Hs & Hdc & Hda & Hh).
  rewrite <- !app_assoc.
  rewrite (de_ser Laws_string) by exact Hc. cbn [bind].
  rewrite (de_ser Laws_string) by exact Hi. cbn [bind].
  rewrite (de_ser Laws_string) by exact Hs. cbn [bind].
  rewrite (de_ser Laws_string) by exact Hdc. cbn [bind].
  rewrite (de_ser Laws_string) by exact Hda. cbn [bind].
  now rewrite take_app by exact Hh.
Qed.

Lemma de_selector_and_message_cons selector bs :
  de_selector_and_message (selector :: bs)
  = bind (de_Message bs) (fun '(m, r) => Ok ((selector, m), r)).
Proof. reflexivity. Qed.

(** X9. What the executable reads is what the relayer was given: when the
    data of a [RelayerInstruction] is a one-byte [Bytes] chunk followed by
    [Message], as in the instructions that call
    [relayer_discovery_build_transaction_2] and the final one, the data of
    the regular instruction is that byte followed by the serialized message,
    and reading a selector and a [Message] from it gives back the byte and
    the message of the context, with nothing left over. *)
Theorem selector_and_message_round_trip :
  forall ctx i requested ix requested' selector m,
    data i = [Bytes [selector]; Message] ->
    message ctx = Some m ->
    wf_Message m ->
    to_instruction ctx i requested = Some (ix, requested') ->
    ix_data ix = selector :: ser_Message m /\
    de_selector_and_message (ix_data ix) = Ok ((selector, m), []).
Proof.
  intros ctx i requested ix requested' selector m Hd Hm Hwf H.
  apply to_instruction_spec in H as (_ & _ & Hc & _).
  rewrite Hd, Hm in Hc.
  change (Some ([selector] ++ ser_Message m ++ []) = Some (ix_data ix)) in Hc.
  assert (E : ix_data ix = [selector] ++ ser_Message m ++ []) by congruence.
  rewrite E, app_nil_r. change ([selector] ++ ser_Message m)
    with (selector :: ser_Message m).
  split; [reflexivity |].
  rewrite de_selector_and_message_cons.
  rewrite <- (app_nil_r (ser_Message m)).
  now rewrite (@de_Message_ser m [] Hwf).
Qed.

Lemma selector_and_message_round_trip_witness :
  let i := {| program := ItsExample.key x11;
              accounts := [MessagePayload];
              data := [Bytes [ItsExample.BUILD_2]; Message] |} in
  exists ix,
    to_instruction ItsExample.sample_context i 0 = Some (ix, 0%N) /\
    de_selector_and_message (ix_data ix)
    = Ok ((ItsExample.BUILD_2, ItsExample.sample_message), []).
Proof.
  intros i.
  destruct (to_instruction ItsExample.sample_context i 0) as [[ix r] |] eqn:E;
    [| discriminate E].
  assert (Hr : r = 0%N) by (vm_compute in E; now injection E).
  subst r. exists ix. split; [reflexivity |].
  assert (Hw : wf_Message ItsExample.sample_message)
    by (repeat split; repeat constructor).
  exact (proj2 (@selector_and_message_round_trip
                  ItsExample.sample_context i 0%N ix 0%N ItsExample.BUILD_2
                  ItsExample.sample_message eq_refl eq_refl Hw E)).
Defined.

(** * The Interchain Token Service example, for all its constants *)

Ltac wf_from_hypotheses :=
  repeat match goal with
         | H : Forall _ (_ :: _) |- _ => inversion_clear H
         end;
  repeat match goal with
         | |- _ /\ _ => split
         | |- Forall _ _ => constructor
         | |- wf_RelayerTransaction _ => red
         | |- wf_RelayerInstruction _ => red
         | |- wf_vec _ _ => red
         | |- wf_RelayerAccount _ => red
         | |- wf_RelayerData _ => red
         | |- wf_AccountMeta _ => red
         | |- wf_Pubkey _ => assumption
         | |- True => exact I
         | |- (_ < _)%N => first [assumption | reflexivity]
         | _ => progress cbn
         end.

Lemma its_wf (BUILD_1 BUILD_2 EXECUTE : byte) (COST : N)
  (crate_id signing_pda gateway_root_pda gateway_id system_program_id
     its_root_pda token_manager_pda token_manager_ata token_mint
     spl_token_2022_id token_program rent_id destination destination_ata : Pubkey) :
  Forall wf_Pubkey
    [crate_id; signing_pda; gateway_root_pda; gateway_id; system_program_id;
       its_root_pda; token_manager_pda; token_manager_ata; token_mint;
       spl_token_2022_id; token_program; rent_id; destination;
       destination_ata] ->
  (COST < 2 ^ 64)%N ->
  wf_RelayerTransaction (ItsExample.transaction BUILD_1 crate_id) /\
  wf_RelayerTransaction
    (ItsExample.relayer_discovery_build_transaction_1 BUILD_2 crate_id
      token_manager_pda) /\
  wf_RelayerTransaction
    (ItsExample.relayer_discovery_build_transaction_2 EXECUTE COST crate_id
      signing_pda gateway_root_pda gateway_id system_program_id its_root_pda
      token_manager_pda token_manager_ata token_mint spl_token_2022_id
      token_program rent_id destination destination_ata).
Proof.
  intros K Hcost. repeat apply conj; wf_from_hypotheses.
Qed.

(** X10. The example end to end, whatever the selector bytes, the cost and
    the (32-byte) addresses: when the [transaction_pda] holds
    [to_vec(transaction)] and the simulations of the stored transaction and
    of the result of [relayer_discovery_build_transaction_1] return the
    results of [relayer_discovery_build_transaction_1] and
    [relayer_discovery_build_transaction_2], the relayer makes two
    simulations and executes the result of
    [relayer_discovery_build_transaction_2], the third descriptor it
    decoded. *)
Theorem its_discovery :
  forall simulate (BUILD_1 BUILD_2 EXECUTE : byte) (COST : N)
    (crate_id signing_pda gateway_root_pda gateway_id system_program_id
     its_root_pda token_manager_pda token_manager_ata token_mint
     spl_token_2022_id token_program rent_id destination destination_ata : Pubkey),
    Forall wf_Pubkey
      [crate_id; signing_pda; gateway_root_pda; gateway_id; system_program_id;
       its_root_pda; token_manager_pda; token_manager_ata; token_mint;
       spl_token_2022_id; token_program; rent_id; destination;
       destination_ata] ->
    (COST < 2 ^ 64)%N ->
    let t0 := ItsExample.transaction BUILD_1 crate_id in
    let t1 :=
      ItsExample.relayer_discovery_build_transaction_1 BUILD_2 crate_id
      token_manager_pda in
    let t2 :=
      ItsExample.relayer_discovery_build_transaction_2 EXECUTE COST crate_id
      signing_pda gateway_root_pda gateway_id system_program_id its_root_pda
      token_manager_pda token_manager_ata token_mint spl_token_2022_id
      token_program rent_id destination destination_ata in
    simulate t0 = Some (encode t1) ->
    simulate t1 = Some (encode t2) ->
    forall fuel,
      discover simulate fuel (Some (encode t0))
      = if fuel <=? 2 then None else Some (Done (t2, 3)).
Proof.
  intros simulate BUILD_1 BUILD_2 EXECUTE COST
    crate_id signing_pda gateway_root_pda gateway_id system_program_id      its_root_pda token_manager_pda token_manager_ata token_mint      spl_token_2022_id token_program rent_id destination destination_ata
    K Hcost t0 t1 t2 H0 H1 fuel.
  destruct (its_wf BUILD_1 BUILD_2 EXECUTE K Hcost) as (W0 & W1 & W2).
  fold t0 t1 t2 in W0, W1, W2.
  assert (V0 : valid_RelayerTransaction t0) by (split; [exact W0 | discriminate]).
  assert (V1 : valid_RelayerTransaction t1) by (split; [exact W1 | discriminate]).
  assert (V2 : valid_RelayerTransaction t2) by (split; [exact W2 | discriminate]).
  assert (Hl : linked simulate t0 [t1; t2]).
  { repeat split; try reflexivity; unfold next.
    - now rewrite H0, (decode_encode_valid V1).
    - now rewrite H1, (decode_encode_valid V2). }
  unfold discover. rewrite (decode_encode_valid V0).
  exact (@relayer_loop_linked simulate [t1; t2] t0 fuel 1 Hl).
Qed.

Lemma its_discovery_witness :
  discover ItsExample.simulate 3 (Some (encode ItsExample.round0))
  = Some (Done (ItsExample.round2, 3)).
Proof.
  apply (@its_discovery ItsExample.simulate
           ItsExample.BUILD_1 ItsExample.BUILD_2 ItsExample.EXEC
           ItsExample.COST (ItsExample.key x11)
           (ItsExample.key x31) (ItsExample.key x32) (ItsExample.key x33)
           (ItsExample.key x34) (ItsExample.key x35) (ItsExample.key x21)
           (ItsExample.key x36) (ItsExample.key x37) (ItsExample.key x38)
           (ItsExample.key x39) (ItsExample.key x3a) (ItsExample.key x3b)
           (ItsExample.key x3c)).
  - repeat constructor.
  - reflexivity.
  - reflexivity.
  - reflexivity.
Defined.

(** X11. The final transaction of the example, whatever its constants and
    addresses: it converts to one instruction of the executable with 16
    accounts, the payer first, and with the [EXECUTE] byte followed by the
    serialized message as data; it asks for
    [INTERCHAIN_TRANSFER_COST] lamports; and when the two gateway accounts of
    the context are no signers, the payer is the only account that signs. *)
Theorem its_final_instruction :
  forall ctx m (EXECUTE : byte) (COST : N)
    (crate_id signing_pda gateway_root_pda gateway_id system_program_id
     its_root_pda token_manager_pda token_manager_ata token_mint
     spl_token_2022_id token_program rent_id destination destination_ata : Pubkey),
    message ctx = Some m ->
    let payer_meta :=
      {| pubkey := payer ctx; is_signer := true; is_writable := true |} in
    exists ix,
      to_transaction ctx
        (ItsExample.relayer_discovery_build_transaction_2 EXECUTE COST
           crate_id signing_pda gateway_root_pda gateway_id system_program_id
           its_root_pda token_manager_pda token_manager_ata token_mint
           spl_token_2022_id token_program rent_id destination
           destination_ata)
      = Some ([ix], COST) /\
      ix_program_id ix = crate_id /\
      length (ix_accounts ix) = 16 /\
      nth_error (ix_accounts ix) 0 = Some payer_meta /\
      ix_data ix = EXECUTE :: ser_Message m /\
      (is_signer (incoming_message_pda ctx) = false ->
       is_signer (message_payload_pda ctx) = false ->
       Forall (fun a => is_signer a = true -> a = payer_meta)
         (ix_accounts ix)).
Proof.
  intros ctx m EXECUTE COST
    crate_id signing_pda gateway_root_pda gateway_id system_program_id      its_root_pda token_manager_pda token_manager_ata token_mint      spl_token_2022_id token_program rent_id destination destination_ata
    Hm payer_meta.
  unfold to_transaction, ItsExample.relayer_discovery_build_transaction_2.
  cbn [instructions to_instructions to_instruction accounts data program app
       resolve_all resolve convert_data convert_chunk].
  rewrite Hm. cbn [option_map N.add].
  eexists. split; [reflexivity |].
  cbn [ix_program_id ix_accounts ix_data length nth_error].
  rewrite app_nil_r.
  repeat split.
  intros Hi Hp.
  repeat constructor; cbn [is_signer ItsExample.new ItsExample.new_readonly];
    intros; congruence.
Qed.

Lemma its_final_instruction_witness :
  exists ix,
    to_transaction ItsExample.sample_context ItsExample.round2
    = Some ([ix], ItsExample.COST) /\
    length (ix_accounts ix) = 16 /\
    Forall (fun a => is_signer a = true ->
                     a = {| pubkey := ItsExample.key xaa;
                            is_signer := true; is_writable := true |})
      (ix_accounts ix).
Proof.
  destruct (@its_final_instruction ItsExample.sample_context
              ItsExample.sample_message ItsExample.EXEC ItsExample.COST
              (ItsExample.key x11)
              (ItsExample.key x31) (ItsExample.key x32) (ItsExample.key x33)
              (ItsExample.key x34) (ItsExample.key x35) (ItsExample.key x21)
              (ItsExample.key x36) (ItsExample.key x37) (ItsExample.key x38)
              (ItsExample.key x39) (ItsExample.key x3a) (ItsExample.key x3b)
              (ItsExample.key x3c) eq_refl)
    as (ix & Ht & _ & Hl & _ & _ & Hs).
  exists ix. exact (conj Ht (conj Hl (Hs eq_refl eq_refl))).
Defined.

(** X12. The first two rounds of the example, whatever the constants, the
    addresses and the context: the stored transaction converts without a
    message to one instruction whose only account is the message payload
    account and whose data is the selector of
    [relayer_discovery_build_transaction_1]; the result of that function
    converts, once the message is at hand, to one instruction with the
    message payload account at position 0 and the token manager at position
    1 (writable, no signer) and with the selector of
    [relayer_discovery_build_transaction_2] followed by the serialized
    message as data, and does not convert without the message.  Neither
    asks for lamports. *)
Theorem its_first_rounds :
  forall ctx (BUILD_1 BUILD_2 : byte) (crate_id token_manager_pda : Pubkey),
    to_transaction ctx (ItsExample.transaction BUILD_1 crate_id)
    = Some ([ {| ix_program_id := crate_id;
                 ix_accounts := [message_payload_pda ctx];
                 ix_data := [BUILD_1] |} ], 0%N) /\
    (forall m,
        message ctx = Some m ->
        to_transaction ctx
          (ItsExample.relayer_discovery_build_transaction_1 BUILD_2 crate_id
             token_manager_pda)
        = Some ([ {| ix_program_id := crate_id;
                     ix_accounts :=
                       [ message_payload_pda ctx;
                         {| pubkey := token_manager_pda;
                            is_signer := false;
                            is_writable := true |} ];
                     ix_data := BUILD_2 :: ser_Message m |} ], 0%N)) /\
    (message ctx = None ->
     to_transaction ctx
       (ItsExample.relayer_discovery_build_transaction_1 BUILD_2 crate_id
          token_manager_pda)
     = None).
Proof.
  intros ctx BUILD_1 BUILD_2 crate_id token_manager_pda.
  unfold to_transaction, ItsExample.transaction,
    ItsExample.relayer_discovery_build_transaction_1.
  cbn [instructions to_instructions to_instruction accounts data program
       resolve_all resolve convert_data convert_chunk].
  repeat split.
  - intros m ->. cbn [option_map]. now rewrite app_nil_r.
  - now intros ->.
Qed.

Lemma its_first_rounds_witness :
  to_transaction ItsExample.sample_context ItsExample.round1
  = Some ([ {| ix_program_id := ItsExample.key x11;
               ix_accounts :=
                 [ ItsExample.new_readonly (ItsExample.key xcc) false;
                   ItsExample.new (ItsExample.key x21) false ];
               ix_data :=
                 ItsExample.BUILD_2 :: ser_Message ItsExample.sample_message
            |} ], 0%N).
Proof.
  exact (proj1 (proj2 (its_first_rounds ItsExample.sample_context
                         ItsExample.BUILD_1 ItsExample.BUILD_2
                         (ItsExample.key x11) (ItsExample.key x21)))
           ItsExample.sample_message eq_refl).
Defined.

(** * The tables of the gateway IDL *)

Lemma nodupb_NoDup (l : list string) : GatewayIdl.nodupb l = true -> NoDup l.
Proof.
  induction l as [| x l IH]; simpl; intros H; [constructor |].
  apply andb_prop in H as [Hx Hl]. constructor; [| now apply IH].
  intros Hin. apply negb_true_iff in Hx.
  assert (E : existsb (String.eqb x) l = true).
  { apply existsb_exists. exists x. split; [exact Hin | apply String.eqb_refl]. }
  congruence.
Qed.

(** X13. Every user-defined type that the IDL mentions, in the arguments of
    an instruction or in a field of a declared type, at any depth of arrays
    and vectors, is declared in [types]. *)
Theorem idl_defined_types_declared :
  forall t name,
    In t GatewayIdl.mentioned_types ->
    In name (GatewayIdl.defined_in t) ->
    In name (map GatewayIdl.type_name GatewayIdl.IDL_types).
Proof.
  assert (H : forallb
                (fun t =>
                   forallb
                     (fun name =>
                        existsb (String.eqb name)
                          (map GatewayIdl.type_name GatewayIdl.IDL_types))
                     (GatewayIdl.defined_in t))
                GatewayIdl.mentioned_types = true) by (vm_compute; reflexivity).
  intros t name Ht Hn.
  rewrite forallb_forall in H. specialize (H t Ht).
  rewrite forallb_forall in H. specialize (H name Hn).
  apply existsb_exists in H as (n' & Hin & E).
  apply String.eqb_eq in E. now subst.
Qed.

Lemma idl_defined_types_declared_witness :
  In "MerkleisedMessage"%string
    (map GatewayIdl.type_name GatewayIdl.IDL_types).
Proof.
  apply (idl_defined_types_declared
           (t := GatewayIdl.TDefined "MerkleisedMessage")).
  - left. reflexivity.
  - left. reflexivity.
Defined.

(** X14. The error table is indexed by its codes: the error with code [c]
    is the entry at position [c]; the table has 29 entries, and no two of
    them share a name. *)
Theorem idl_errors_indexed :
  length GatewayIdl.IDL_errors = 29 /\
  (forall e,
      In e GatewayIdl.IDL_errors ->
      nth_error GatewayIdl.IDL_errors (GatewayIdl.code e) = Some e) /\
  NoDup (map GatewayIdl.error_name GatewayIdl.IDL_errors).
Proof.
  split; [reflexivity |]. split.
  - apply Forall_forall. repeat constructor.
  - apply nodupb_NoDup. vm_compute. reflexivity.
Qed.

Lemma idl_errors_indexed_witness :
  nth_error GatewayIdl.IDL_errors 25
  = Some {| GatewayIdl.code := 25;
            GatewayIdl.error_name := "MessageNotApproved";
            GatewayIdl.msg := "Message not approved" |}.
Proof.
  apply (proj1 (proj2 idl_errors_indexed)
           {| GatewayIdl.code := 25;
              GatewayIdl.error_name := "MessageNotApproved";
              GatewayIdl.msg := "Message not approved" |}).
  do 25 right. left. reflexivity.
Defined.

(** X15. Names in the IDL are unambiguous: no two instructions and no two
    declared types share a name, and within an instruction no two accounts
    and no two arguments do. *)
Theorem idl_names_unique :
  NoDup (map GatewayIdl.instruction_name GatewayIdl.IDL_instructions) /\
  NoDup (map GatewayIdl.type_name GatewayIdl.IDL_types) /\
  (forall i,
      In i GatewayIdl.IDL_instructions ->
      NoDup (map GatewayIdl.account_name (GatewayIdl.accounts i)) /\
      NoDup (map GatewayIdl.field_name (GatewayIdl.args i))).
Proof.
  split; [apply nodupb_NoDup; vm_compute; reflexivity |].
  split; [apply nodupb_NoDup; vm_compute; reflexivity |].
  assert (H : forallb
                (fun i =>
                   GatewayIdl.nodupb
                     (map GatewayIdl.account_name (GatewayIdl.accounts i)) &&
                   GatewayIdl.nodupb
                     (map GatewayIdl.field_name (GatewayIdl.args i)))
                GatewayIdl.IDL_instructions = true) by (vm_compute; reflexivity).
  intros i Hi. rewrite forallb_forall in H.
  apply H, andb_prop in Hi as [Ha Hf].
  split; now apply nodupb_NoDup.
Qed.

Lemma idl_names_unique_witness :
  NoDup ["incomingMessagePda"; "signingPda"]%string /\
  NoDup ["message"]%string.
Proof.
  apply (proj2 (proj2 idl_names_unique)
           {| GatewayIdl.instruction_name := "validateMessage";
              GatewayIdl.accounts :=
                [ {| GatewayIdl.account_name := "incomingMessagePda";
                     GatewayIdl.isMut := true;
                     GatewayIdl.isSigner := false;
                     GatewayIdl.isOptional := None |};
                  {| GatewayIdl.account_name := "signingPda";
                     GatewayIdl.isMut := false;
                     GatewayIdl.isSigner := true;
                     GatewayIdl.isOptional := None |} ];
              GatewayIdl.args :=
                [ {| GatewayIdl.field_name := "message";
                     GatewayIdl.field_type := GatewayIdl.TDefined "Message" |} ]
           |}).
  do 11 right. left. reflexivity.
Defined.

(** X16. In every instruction of the IDL an account named [payer] is
    writable and signs, [systemProgram] is neither writable nor a signer,
    [incomingMessagePda] and [messagePayloadPda] never sign, and the only
    optional account is [operator]. *)
Theorem idl_account_roles :
  forall a,
    In a GatewayIdl.all_accounts ->
    (GatewayIdl.account_name a = "payer"%string ->
     GatewayIdl.isMut a = true /\ GatewayIdl.isSigner a = true) /\
    (GatewayIdl.account_name a = "systemProgram"%string ->
     GatewayIdl.isMut a = false /\ GatewayIdl.isSigner a = false) /\
    (GatewayIdl.account_name a = "incomingMessagePda"%string \/
     GatewayIdl.account_name a = "messagePayloadPda"%string ->
     GatewayIdl.isSigner a = false) /\
    (GatewayIdl.isOptional a <> None ->
     GatewayIdl.account_name a = "operator"%string).
Proof.
  apply Forall_forall.
  unfold GatewayIdl.all_accounts. cbn [flat_map GatewayIdl.IDL_instructions
    GatewayIdl.accounts app].
  repeat constructor;
    cbn [GatewayIdl.account_name GatewayIdl.isMut GatewayIdl.isSigner
         GatewayIdl.isOptional];
    try reflexivity; try discriminate;
    try (intros [H | H]; first [reflexivity | discriminate H]);
    try (intros H; first [reflexivity | now destruct H]).
Qed.

Lemma idl_account_roles_witness :
  let a := {| GatewayIdl.account_name := "payer";
              GatewayIdl.isMut := true;
              GatewayIdl.isSigner := true;
              GatewayIdl.isOptional := None |} in
  In a GatewayIdl.all_accounts /\
  GatewayIdl.isMut a = true /\ GatewayIdl.isSigner a = true.
Proof.
  intros a.
  assert (Hin : In a GatewayIdl.all_accounts) by (right; left; reflexivity).
  split; [exact Hin |].
  exact (proj1 (@idl_account_roles a Hin) eq_refl).
Defined.
